(** * Flight logging simulator: the mapper, the control and the roc

  A shallow embedding of the programs of the repository:
  the mapper (the directory of airport ids and ports), the control
  (the log of visiting planes) and the roc (the plane that visits the
  controls), with the parts of the C library they call.  Undefined behaviour of the C program (a store past the end of
  the registry array, [strcmp] on a null pointer, a write before the start
  of the line buffer) is the result [None]. *)

From Stdlib Require Import ZArith Lia Ascii String Sorted DecimalString.
From stdpp Require Import base option list sorting strings.

(** ** The C library, as far as the servers use it *)

Module CLib.

Local Open Scope Z_scope.

(** The characters the servers name. *)
Definition NUL : ascii := "000"%char.
Definition LF : ascii := "010"%char.
Definition CR : ascii := "013"%char.
Definition COLON : ascii := ":"%char.

(** A C string is the sequence of bytes before its terminating NUL. *)
Definition newline : string := String LF EmptyString.

(** The value of a character as [unsigned char]. *)
Definition byte (c : ascii) : N := N_of_ascii c.

(** [strlen]. *)
Definition strlen (s : string) : nat := String.length s.

(** [s[0]]: the first byte, or the terminating NUL of the empty string. *)
Definition char0 (s : string) : ascii :=
  match s with
  | EmptyString => NUL
  | String c _ => c
  end.

(** [&s[1]] of a string that is not empty. *)
Definition from1 (s : string) : string :=
  match s with
  | EmptyString => EmptyString
  | String _ r => r
  end.

(** [strcmp]: the sign of the first difference, bytes compared as
    [unsigned char]; the C standard fixes the sign of the result only. *)
Fixpoint strcmp (s1 s2 : string) : Z :=
  match s1, s2 with
  | EmptyString, EmptyString => 0
  | EmptyString, String _ _ => -1
  | String _ _, EmptyString => 1
  | String c1 r1, String c2 r2 =>
      match N.compare (byte c1) (byte c2) with
      | Lt => -1
      | Gt => 1
      | Eq => strcmp r1 r2
      end
  end.

(** [isdigit]. *)
Definition isdigit (c : ascii) : bool :=
  (N.leb 48 (byte c) && N.leb (byte c) 57)%bool.

(** Membership of a character in a delimiter set. *)
Fixpoint is_delim (delim : string) (c : ascii) : bool :=
  match delim with
  | EmptyString => false
  | String d r => (Ascii.eqb c d || is_delim r c)%bool
  end.

(** [s + strspn(s, delim)]: skip the leading delimiters. *)
Fixpoint skip_delims (delim : string) (s : string) : string :=
  match s with
  | EmptyString => EmptyString
  | String c r => if is_delim delim c then skip_delims delim r else s
  end.

(** The token at the start of [s] (up to [strcspn(s, delim)]) and the new
    save pointer: after the delimiter that ended the token, or the end of
    the string. *)
Fixpoint split_token (delim : string) (s : string) : string * string :=
  match s with
  | EmptyString => (EmptyString, EmptyString)
  | String c r =>
      if is_delim delim c then (EmptyString, r)
      else let '(tok, save) := split_token delim r in (String c tok, save)
  end.

(** [strtok], with its hidden save pointer passed explicitly:
    [strtok str delim save] is the token ([None] for a null pointer) and
    the save pointer left for the next call; [str = None] continues from
    [save]. *)
Definition strtok (str : option string) (delim : string) (save : string)
  : option string * string :=
  let s := match str with Some s => s | None => save end in
  match skip_delims delim s with
  | EmptyString => (None, EmptyString)
  | String c r => let '(tok, save') := split_token delim (String c r) in
                  (Some tok, save')
  end.

(** [s[strlen(s) - 1] = 0]: cut the last byte off; on the empty string the
    store goes to [s[-1]], outside the buffer. *)
Fixpoint cut_last (s : string) : option string :=
  match s with
  | EmptyString => None
  | String c EmptyString => Some EmptyString
  | String c r => r' ← cut_last r; Some (String c r')
  end.

(** [s[strlen(s) - 1]] of a string that is not empty. *)
Fixpoint last_char (s : string) : ascii :=
  match s with
  | EmptyString => NUL
  | String c EmptyString => c
  | String _ r => last_char r
  end.

End CLib.

Import CLib.

(** ** The registry array

  Both servers keep their registry in a [malloc]ed array of pointers and a
  count of the entries in use.  A slot is [Some e] once a pointer to [e] was
  stored in it and [None] while it is uninitialised; the array has as many
  slots as were allocated. *)

Section Registry.

Context {E : Type} (key : E → string).

Implicit Types (arr : list (option E)) (l : list E) (k : string) (e : E).

(** [arr[i]], dereferenced. *)
Definition deref arr (i : nat) : option E := arr !! i ≫= id.

(** [arr[i] = v]. *)
Definition store arr (i : nat) (v : option E) : option (list (option E)) :=
  if decide (i < length arr) then Some (<[i:=v]> arr) else None.

(** [while (insertionIndex < num && strcmp(k, key(arr[insertionIndex])) >= 0)
    insertionIndex++;] started at [i], with [fuel = num - i]. *)
Fixpoint insertion_index k arr (i fuel : nat) : option nat :=
  match fuel with
  | O => Some i
  | S fuel' =>
      e ← deref arr i;
      if (0 <=? strcmp k (key e))%Z then insertion_index k arr (S i) fuel'
      else Some i
  end.

(** [for (int i = num - 1; i >= insertionIndex; i--) arr[i + 1] = arr[i];]
    with [count = num - insertionIndex] iterations left. *)
Fixpoint shift_right arr (insertionIndex count : nat)
  : option (list (option E)) :=
  match count with
  | O => Some arr
  | S count' =>
      let i := (insertionIndex + count')%nat in
      v ← arr !! i;
      arr' ← store arr (S i) v;
      shift_right arr' insertionIndex count'
  end.

(** The insertion step shared by [add_plane] and [add_airport]. *)
Definition insert_ordered k e arr (num : nat)
  : option (list (option E) * nat) :=
  insertionIndex ← insertion_index k arr 0 num;
  arr1 ← shift_right arr insertionIndex (num - insertionIndex);
  arr2 ← store arr1 insertionIndex (Some e);
  Some (arr2, S num).

(** [for (int i = 0; i < num; i++) fprintf(stream, fmt, arr[i]);] started at
    [i], with [fuel = num - i]: the texts printed. *)
Fixpoint print_entries (fmt : E → string) arr (i fuel : nat)
  : option (list string) :=
  match fuel with
  | O => Some []
  | S fuel' =>
      e ← deref arr i;
      rest ← print_entries fmt arr (S i) fuel';
      Some (fmt e :: rest)
  end.

(** The entries in use, front to back. *)
Definition contents arr (num : nat) : list E := omap id (take num arr).

(** [arr] holds exactly [l] in its first [num] slots. *)
Definition represents arr (num : nat) l : Prop :=
  take num arr = Some <$> l ∧ num ≤ length arr.

(** Invariant I1: keys do not decrease from front to back. *)
Definition key_le (a b : E) : Prop := (strcmp (key a) (key b) ≤ 0)%Z.
Definition sorted l : Prop := Sorted key_le l.

(** The number of leading entries of [l] the scan of the insertion step
    passes, and the list the step builds, for reasoning on [contents]. *)
Fixpoint scan k l : nat :=
  match l with
  | [] => 0
  | e :: r => if (0 <=? strcmp k (key e))%Z then S (scan k r) else 0
  end.

Definition place k e l : list E := take (scan k l) l ++ e :: drop (scan k l) l.

End Registry.

(** ** What a connection handler does, in order *)

Inductive event : Type :=
| Fgets (line : option string)   (* a read from the connection; [None]: it failed *)
| TakeLock
| ReleaseLock
| Fprintf (text : string)        (* text put into the write stream *)
| Fflush                         (* the write stream sent to the peer *)
| Fclose.

(** Whether the handler loop goes on to the next read or leaves the loop. *)
Inductive flow : Type := Continue | Break.



(** The events that put text on the connection. *)
Definition is_write (e : event) : bool :=
  match e with
  | Fprintf _ | Fflush => true
  | _ => false
  end.

(** The texts a handler sent, in order. *)
Fixpoint response (trace : list event) : list string :=
  match trace with
  | [] => []
  | Fprintf text :: rest => text :: response rest
  | _ :: rest => response rest
  end.

(** The line framing of section 4.2 of the specification: a chunk is a
    payload followed by the newline terminator, the payload is not empty and
    has no newline, carriage return or colon. *)
Definition forbidden (c : ascii) : bool :=
  Ascii.eqb c LF || Ascii.eqb c CR || Ascii.eqb c COLON.

Fixpoint terminated_payload (chunk : string) : bool :=
  match chunk with
  | EmptyString => false
  | String c EmptyString => Ascii.eqb c LF
  | String c rest => negb (forbidden c) && terminated_payload rest
  end.

Definition well_framed (chunk : string) : bool :=
  negb (String.eqb chunk newline) && terminated_payload chunk.

(** The fields of a payload: the pieces between its colons, and those of
    them that are not empty. *)
Fixpoint split_colon (s : string) : list string :=
  match s with
  | EmptyString => [EmptyString]
  | String c rest =>
      if Ascii.eqb c COLON then EmptyString :: split_colon rest
      else match split_colon rest with
           | field :: others => String c field :: others
           | [] => [String c EmptyString]
           end
  end.

Definition fields (s : string) : list string :=
  filter (λ field, field ≠ EmptyString) (split_colon s).

(** ** The mapper (src/unnamed/part_000) *)

Module Mapper.

Record Airport : Type := { name : string; portNumber : string }.

(** [size_t maxAirports = 1000] of [main]. *)
Definition maxAirports : nat := 1000.

(** The state shared by the handlers: the array [airports] and
    [numAirports]. *)
Record Directory : Type :=
  { airports : list (option Airport); numAirports : nat }.

(** The state [main] sets up: [maxAirports] uninitialised slots, none used. *)
Definition initial : Directory :=
  {| airports := replicate maxAirports None; numAirports := 0 |}.

(** The loop of [get_airport_index], started at [i] with
    [fuel = numAirports - i]; [strcmp] on a null [airportName] is undefined. *)
Fixpoint get_airport_index_from (airportName : option string)
  (airports : list (option Airport)) (i fuel : nat) : option Z :=
  match fuel with
  | O => Some (-1)%Z
  | S fuel' =>
      a ← deref airports i;
      n ← airportName;
      if (strcmp n (name a) =? 0)%Z then Some (Z.of_nat i)
      else get_airport_index_from airportName airports (S i) fuel'
  end.

Definition get_airport_index (airportName : option string)
  (airports : list (option Airport)) (numAirports : nat) : option Z :=
  get_airport_index_from airportName airports 0 numAirports.

(** [is_integer] of the mapper: 1 unless some character is not a digit. *)
Fixpoint is_integer (s : string) : bool :=
  match s with
  | EmptyString => true
  | String c r => if isdigit c then is_integer r else false
  end.

Definition add_airport (command : string) (d : Directory) : option Directory :=
  let '(airportName, save) := strtok (Some command) ":" EmptyString in
  index ← get_airport_index airportName (airports d) (numAirports d);
  if negb (index =? -1)%Z then Some d (* id already exists *)
  else
    let '(portNumber, _) := strtok None ":" save in
    match portNumber with
    | None => Some d
    | Some portNumber =>
        if (strlen portNumber <? 1) || negb (is_integer portNumber) then Some d
        else
          (* a null [airportName] never comes with a port number *)
          airportName ← airportName;
          let airport := {| name := airportName; portNumber := portNumber |} in
          '(airports', numAirports') ←
            insert_ordered name airportName airport (airports d) (numAirports d);
          Some {| airports := airports'; numAirports := numAirports' |}
    end.

(** The line printed for one airport by the [@] command. *)
Definition airport_line (a : Airport) : string :=
  name a +:+ ":" +:+ portNumber a +:+ newline.

(** [handle_input]: the new state and what is done to the write stream. *)
Definition handle_input (message : string) (d : Directory)
  : option (Directory * list event) :=
  if Ascii.eqb (char0 message) "?" then
    index ← get_airport_index (Some (from1 message)) (airports d) (numAirports d);
    if (index =? -1)%Z then Some (d, [Fprintf (";" +:+ newline); Fflush])
    else
      a ← deref (airports d) (Z.to_nat index);
      Some (d, [Fprintf (portNumber a +:+ newline); Fflush])
  else if Ascii.eqb (char0 message) "!" then
    d' ← add_airport (from1 message) d;
    Some (d', [])
  else if (strcmp message "@" =? 0)%Z then
    texts ← print_entries airport_line (airports d) 0 (numAirports d);
    Some (d, (Fprintf <$> texts) ++ [Fflush])
  else Some (d, []).

(** One turn of the loop of [client_handler] after a successful [fgets]
    that returned [chunk]. *)
Definition client_step (chunk : string) (d : Directory)
  : option (Directory * list event) :=
  message ← cut_last chunk;
  let len := strlen message in
  if (Ascii.eqb (char0 message) "?" || Ascii.eqb (char0 message) "!")
     && (len <? 2)
  then Some (d, []) (* message is invalid; ignore *)
  else
    '(d', out) ← handle_input message d;
    Some (d', TakeLock :: out ++ [ReleaseLock]).

(** [client_handler] on a connection whose successive [fgets] calls return
    the chunks of [input] and then fail. *)
Fixpoint client_handler (input : list string) (d : Directory)
  : option (Directory * list event) :=
  match input with
  | [] => Some (d, [Fgets None; Fclose; Fclose])
  | chunk :: rest =>
      '(d1, ev1) ← client_step chunk d;
      '(d2, ev2) ← client_handler rest d1;
      Some (d2, Fgets (Some chunk) :: ev1 ++ ev2)
  end.

(** The accept loop of [main]: [accepts] are the results of the successive
    calls of [accept]; the result lists the descriptors handed to
    [pthread_create], in order. *)
Fixpoint accept_loop (iterations : nat) (accepts : list Z) : list Z :=
  match iterations, accepts with
  | S n, fileDescriptor :: rest =>
      if (0 <=? fileDescriptor)%Z then fileDescriptor :: accept_loop n rest
      else accept_loop n rest
  | _, _ => []
  end.

Definition main_loop (accepts : list Z) : list Z :=
  accept_loop maxAirports accepts.

(** The directory holds the entries [l], front to back. *)
Definition holds (d : Directory) (l : list Airport) : Prop :=
  represents (airports d) (numAirports d) l.

(** The example of the specification: the directory after [BNE] was
    registered with port [8001] in the initial state. *)
Definition bne : Airport := {| name := "BNE"; portNumber := "8001" |}.

Definition with_bne : Directory :=
  {| airports := Some bne :: replicate 999 None; numAirports := 1 |}.

(** The states of the shared registry the handlers can produce: each step is
    one critical section. *)
Inductive reachable : Directory → Prop :=
| reachable_initial : reachable initial
| reachable_step d message d' out :
    reachable d → handle_input message d = Some (d', out) → reachable d'.

(** The registration a payload asks for, as [add_airport] reads it: the
    first two non-empty fields, the second all digits. *)
Definition registration (payload : string) : option Airport :=
  match fields payload with
  | id :: port :: _ =>
      if is_integer port then Some {| name := id; portNumber := port |}
      else None
  | _ => None
  end.

(** [insertIfAbsent] of section 4.1 of the specification, on the list of
    entries. *)
Definition insertIfAbsent (a : Airport) (l : list Airport) : list Airport :=
  if decide (name a ∈ name <$> l) then l else place name (name a) a l.

(** The registration a payload asks for in the words of the specification: a
    single colon between an id that is not empty and a valid port, a string
    of digits, not empty, whose value lies in 1..65535. *)
Definition port_value (s : string) : Z :=
  fold_left (λ acc c, (10 * acc + (Z.of_N (byte c) - 48))%Z)
            (list_ascii_of_string s) 0%Z.

Definition valid_port (s : string) : bool :=
  negb (String.eqb s EmptyString) && forallb isdigit (list_ascii_of_string s)
  && (1 <=? port_value s)%Z && (port_value s <=? 65535)%Z.

Definition claimed_registration (payload : string) : option Airport :=
  match split_colon payload with
  | [id; port] =>
      if negb (String.eqb id EmptyString) && valid_port port
      then Some {| name := id; portNumber := port |}
      else None
  | _ => None
  end.

End Mapper.

(** ** The control (control2310.c, the second file of src/roc2310.c) *)

Module Control.

(** [size_t maxPlanes = 1000] of [main]. *)
Definition maxPlanes : nat := 1000.

(** The state shared by the handlers: the array [planes] and [numPlanes]. *)
Record Log : Type := { planes : list (option string); numPlanes : nat }.

Definition initial : Log :=
  {| planes := replicate maxPlanes None; numPlanes := 0 |}.

(** The loop of [verify_message] over the first [n] characters: whether one
    of them is a newline, a carriage return or a colon. *)
Fixpoint has_invalid_char (s : string) (n : nat) : bool :=
  match n, s with
  | S n', String c r =>
      if Ascii.eqb c LF || Ascii.eqb c CR || Ascii.eqb c COLON then true
      else has_invalid_char r n'
  | _, _ => false
  end.

Definition verify_message (s : string) : bool :=
  let len := strlen s in
  if len <? 2 then false
  else if negb (Ascii.eqb (last_char s) LF) then false
  else negb (has_invalid_char s (len - 1)).

Definition add_plane (plane : string) (g : Log) : option Log :=
  '(planes', numPlanes') ←
    insert_ordered id plane plane (planes g) (numPlanes g);
  Some {| planes := planes'; numPlanes := numPlanes' |}.

(** The line printed for one plane by the [log] command. *)
Definition plane_line (plane : string) : string := plane +:+ newline.

(** One turn of the loop of [client_handler] after a successful [fgets]
    that returned [chunk]; [info] is the control's information. *)
Definition client_step (info : string) (chunk : string) (g : Log)
  : option (Log * list event * flow) :=
  if negb (verify_message chunk) then Some (g, [], Continue)
  else
    id ← cut_last chunk;
    if (strcmp "log" id =? 0)%Z then
      texts ← print_entries plane_line (planes g) 0 (numPlanes g);
      Some (g, TakeLock :: (Fprintf <$> texts)
                 ++ [Fprintf ("." +:+ newline); Fflush], Break)
    else
      g' ← add_plane id g;
      Some (g', [TakeLock; Fprintf (info +:+ newline); Fflush; ReleaseLock],
            Continue).

(** [client_handler] on a connection whose successive [fgets] calls return
    the chunks of [input] and then fail. *)
Fixpoint client_handler (info : string) (input : list string) (g : Log)
  : option (Log * list event) :=
  match input with
  | [] => Some (g, [Fgets None; Fclose; Fclose])
  | chunk :: rest =>
      '(g1, ev1, fl) ← client_step info chunk g;
      match fl with
      | Break => Some (g1, Fgets (Some chunk) :: ev1 ++ [Fclose; Fclose])
      | Continue =>
          '(g2, ev2) ← client_handler info rest g1;
          Some (g2, Fgets (Some chunk) :: ev1 ++ ev2)
      end
  end.

(** [accept_clients]: [accepts] are the results of the successive calls of
    [accept]; the result lists the descriptors handed to [pthread_create]. *)
Fixpoint accept_clients (accepts : list Z) (maxPlanes : nat) : list Z :=
  match maxPlanes, accepts with
  | S n, clientFileDescriptor :: rest =>
      if (0 <=? clientFileDescriptor)%Z
      then clientFileDescriptor :: accept_clients rest n
      else accept_clients rest n
  | _, _ => []
  end.

(** The log holds the entries [l], front to back. *)
Definition holds (g : Log) (l : list string) : Prop :=
  represents (planes g) (numPlanes g) l.

(** The example of the specification: the log after [AB123] and [CD456]
    visited a fresh control. *)
Definition two_visits : Log :=
  {| planes := Some "AB123" :: Some "CD456" :: replicate 998 None;
     numPlanes := 2 |}.

(** The states of the shared log the handlers can produce. *)
Inductive reachable (info : string) : Log → Prop :=
| reachable_initial : reachable info initial
| reachable_step g chunk g' out fl :
    reachable info g → client_step info chunk g = Some (g', out, fl) →
    reachable info g'.

End Control.

(** ** Notions for further properties of the servers *)

(** Every character of [s] passes the test [p]. *)
Fixpoint all_chars (p : ascii → bool) (s : string) : bool :=
  match s with
  | EmptyString => true
  | String c r => p c && all_chars p r
  end.

(** The strings without a colon, and those without a newline, a carriage
    return or a colon. *)
Definition colon_free (s : string) : bool :=
  all_chars (λ c, negb (Ascii.eqb c COLON)) s.

Definition clean (s : string) : bool := all_chars (λ c, negb (forbidden c)) s.

(** Whether the handler holds the lock after the events of [trace]. *)
Fixpoint lock_after (held : bool) (trace : list event) : bool :=
  match trace with
  | [] => held
  | TakeLock :: rest => lock_after true rest
  | ReleaseLock :: rest => lock_after false rest
  | _ :: rest => lock_after held rest
  end.

(** A directory and a log with every slot in use: 1000 airports with the
    ids [aaa], [aab], ... [jjj] and port 1, and 1000 visits of [AB123]. *)
Definition airport_code (i : nat) : string :=
  String (ascii_of_nat (97 + i / 100))
    (String (ascii_of_nat (97 + (i / 10) mod 10))
       (String (ascii_of_nat (97 + i mod 10)) EmptyString)).

Definition coded_airport (i : nat) : Mapper.Airport :=
  {| Mapper.name := airport_code i; Mapper.portNumber := "1" |}.

Definition full_directory : Mapper.Directory :=
  {| Mapper.airports := (λ i, Some (coded_airport i)) <$> seq 0 1000;
     Mapper.numAirports := 1000 |}.


(** An entry of the directory as [add_airport] stores it: an id that is not
    empty and has no colon, a port that is a string of digits and not
    empty. *)
Definition proper_airport (a : Mapper.Airport) : Prop :=
  Mapper.name a ≠ EmptyString ∧ colon_free (Mapper.name a) = true
  ∧ Mapper.portNumber a ≠ EmptyString
  ∧ Mapper.is_integer (Mapper.portNumber a) = true.

(** An id the control logs: not empty, not [log], without newline, carriage
    return and colon. *)
Definition plane_id (plane : string) : Prop :=
  plane ≠ EmptyString ∧ plane ≠ "log" ∧ clean plane = true.

(** ** More of the C library: lines, numbers *)

Module CLine.

(** The bytes [fgets] takes from [stream] when its buffer has room for [room]
    of them: the bytes up to the first newline and that newline, or [room]
    bytes when no newline comes before.  The result is the bytes taken and the
    rest of the stream. *)
Fixpoint take_line (room : nat) (stream : string) : string * string :=
  match room, stream with
  | S room', String c rest =>
      if Ascii.eqb c LF then (String c EmptyString, rest)
      else let '(line, rest') := take_line room' rest in (String c line, rest')
  | _, _ => (EmptyString, stream)
  end.

(** [fgets(buffer, bufferSize, stream)] when [stream] is all the peer sends:
    a null pointer at its end. *)
Definition fgets (bufferSize : nat) (stream : string)
  : option (string * string) :=
  match stream with
  | EmptyString => None
  | String _ _ => Some (take_line (bufferSize - 1) stream)
  end.


(** [isspace]. *)
Definition isspace (c : ascii) : bool :=
  N.eqb (byte c) 32 || (N.leb 9 (byte c) && N.leb (byte c) 13).

Fixpoint skip_spaces (s : string) : string :=
  match s with
  | EmptyString => EmptyString
  | String c r => if isspace c then skip_spaces r else s
  end.

(** The value of the digits at the start of [s], after [acc]. *)
Fixpoint digits_value (acc : Z) (s : string) : Z :=
  match s with
  | EmptyString => acc
  | String c r =>
      if isdigit c then digits_value (10 * acc + (Z.of_N (byte c) - 48)) r
      else acc
  end.

Definition INT_MAX : Z := 2147483647.
Definition INT_MIN : Z := -2147483648.

(** [atoi]: white space, an optional sign, digits; the result is undefined
    when the value is not an [int]. *)
Definition atoi (s : string) : option Z :=
  let s1 := skip_spaces s in
  let value :=
    match s1 with
    | String c r =>
        if Ascii.eqb c "-" then (- digits_value 0 r)%Z
        else if Ascii.eqb c "+" then digits_value 0 r
        else digits_value 0 s1
    | EmptyString => 0%Z
    end in
  if (INT_MIN <=? value)%Z && (value <=? INT_MAX)%Z then Some value else None.

(** What [printf] writes for [%u]. *)
Definition print_unsigned (n : N) : string :=
  NilZero.string_of_uint (N.to_uint n).

End CLine.

(** ** The roc (roc2310.c, the first file of src/roc2310.c) *)

Module Roc.

Import CLine.

Definition MAX_CHARS : nat := 79.

(** The loop of [is_integer] from index [i] on, and its [return i > 0]. *)
Fixpoint is_integer_from (s : string) (i : nat) : bool :=
  match s with
  | EmptyString => 0 <? i
  | String c r => if isdigit c then is_integer_from r (S i) else false
  end.

Definition is_integer (s : string) : bool := is_integer_from s 0.

Definition is_valid_port_number (port : string) : option bool :=
  if negb (is_integer port) then Some false
  else
    portInt ← atoi port;
    if (portInt <? 1)%Z || (65535 <? portInt)%Z then Some false
    else Some true.

Fixpoint verify_port_numbers (ports : list string) : option bool :=
  match ports with
  | [] => Some true
  | port :: rest =>
      valid ← is_valid_port_number port;
      if negb valid then Some false else verify_port_numbers rest
  end.

(** [verify_message]: the roc and the control have the same text. *)
Definition verify_message (s : string) : bool := Control.verify_message s.

(** [read_line] on the bytes still to come from the peer. *)
Definition read_line (stream : string) : option (string * string) :=
  fgets (MAX_CHARS + 1) stream.

(** The loop of [parse_to_port_numbers]; [read k] is what call number [k] of
    [read_line] returns.  The result is the value returned, the array
    [airports] at that moment and the lines written to the mapper. *)
Fixpoint parse_loop (read : nat → option string) (airports : list string)
  (k : nat) : option (Z * list string * list string) :=
  match airports with
  | [] => Some (0%Z, [], [])
  | airport :: rest =>
      valid ← is_valid_port_number airport;
      if (valid : bool) then
        '(result, rest', written) ← parse_loop read rest k;
        Some (result, airport :: rest', written)
      else
        let request := "?" +:+ airport +:+ newline in
        match read k with
        | None => Some ((-2)%Z, airport :: rest, [request])
        | Some portNumber =>
            if negb (verify_message portNumber)
            then Some ((-2)%Z, airport :: rest, [request])
            else
              portNumber' ← cut_last portNumber;
              if (strcmp portNumber' ";" =? 0)%Z
              then Some ((-2)%Z, airport :: rest, [request])
              else
                '(result, rest', written) ← parse_loop read rest (S k);
                Some (result, portNumber' :: rest', request :: written)
        end
  end.

(** [parse_to_port_numbers]; [fileDescriptor] is what [connect_to_port]
    returned for the mapper. *)
Definition parse_to_port_numbers (fileDescriptor : Z)
  (read : nat → option string) (airports : list string)
  : option (Z * list string * list string) :=
  if (fileDescriptor =? -1)%Z then Some ((-1)%Z, airports, [])
  else parse_loop read airports 0.

(** The loop of [create_log] from port number [i] on; [connect i port] is
    what [connect_to_port] returns for that port and [read i] what
    [read_line] returns on that connection.  The result is the part of the
    log written from there on, whether a connection failed, and the numbers
    of the connections the line with the id was written to. *)
Fixpoint create_log_from (connect : nat → string → Z)
  (read : nat → option string) (id : string) (ports : list string) (i : nat)
  : option (list string * bool * list (nat * string)) :=
  match ports with
  | [] => Some ([], false, [])
  | port :: rest =>
      if (connect i port =? -1)%Z then
        '(log, _, written) ← create_log_from connect read id rest (S i);
        Some (log, true, written)
      else
        let line := id +:+ newline in
        match read i with
        | None =>
            '(log, _, written) ← create_log_from connect read id rest (S i);
            Some (log, true, (i, line) :: written)
        | Some info =>
            if negb (verify_message info) then
              '(log, _, written) ← create_log_from connect read id rest (S i);
              Some (log, true, (i, line) :: written)
            else
              info' ← cut_last info;
              '(log, failed, written) ←
                create_log_from connect read id rest (S i);
              Some (info' :: log, failed, (i, line) :: written)
        end
  end.

Definition create_log (connect : nat → string → Z)
  (read : nat → option string) (id : string) (ports : list string)
  : option (list string * bool * list (nat * string)) :=
  create_log_from connect read id ports 0.

(** [display_log]: the lines put on the standard output. *)
Definition display_log (log : list string) : list string :=
  (λ entry, entry +:+ newline) <$> log.

(** What a run of the roc shows: its exit status and what it printed. *)
Record run : Type :=
  { status : Z; stdout : list string; stderr : list string }.

(** What the network does to the roc: the descriptor of the connection to
    the mapper and the replies read from it, and for destination number [i]
    the descriptor of its connection and the reply read from it. *)
Record network : Type :=
  { mapper_connect : Z;
    mapper_read : nat → option string;
    connect : nat → string → Z;
    read : nat → option string }.

Definition main (argv : list string) (net : network) : option run :=
  match argv with
  | _ :: id :: mapper :: airports =>
      let mapperGiven := negb (strcmp "-" mapper =? 0)%Z in
      valid ← (if mapperGiven then is_valid_port_number mapper else Some true);
      if negb valid then
        Some {| status := 2; stdout := [];
                stderr := ["Invalid mapper port" +:+ newline] |}
      else
        resolved ←
          (if negb mapperGiven then
             ok ← verify_port_numbers airports;
             Some (if negb ok then inl (3%Z, "Mapper required" +:+ newline)
                   else inr airports)
           else
             '(result, airports', _) ←
               parse_to_port_numbers (mapper_connect net) (mapper_read net)
                                     airports;
             Some (if (result =? -1)%Z
                   then inl (4%Z, "Failed to connect to mapper" +:+ newline)
                   else if (result =? -2)%Z
                   then inl (5%Z, "No map entry for destination" +:+ newline)
                   else inr airports'));
        match resolved with
        | inl (code, message) =>
            Some {| status := code; stdout := []; stderr := [message] |}
        | inr ports =>
            '(log, failed, _) ← create_log (connect net) (read net) id ports;
            Some (if failed : bool
                  then {| status := 6; stdout := display_log log;
                          stderr := ["Failed to connect to at least one destination"
                                       +:+ newline] |}
                  else {| status := 0; stdout := display_log log;
                          stderr := [] |})
        end
  | _ =>
      Some {| status := 1; stdout := [];
              stderr := ["Usage: roc2310 id mapper {airports}" +:+ newline] |}
  end.

End Roc.

(** ** The start of the control (control2310.c) *)

Module ControlStart.

Import CLine.

(** The loop of [contains_invalid_characters]. *)
Fixpoint contains_invalid_characters (s : string) : bool :=
  match s with
  | EmptyString => false
  | String c r =>
      if Ascii.eqb c LF || Ascii.eqb c CR || Ascii.eqb c COLON then true
      else contains_invalid_characters r
  end.

(** [is_valid_port_number]: the control and the roc have the same text. *)
Definition is_valid_port_number (port : string) : option bool :=
  Roc.is_valid_port_number port.

(** The line [send_info_to_mapper] writes. *)
Definition registration_line (id : string) (controlPort : N) : string :=
  "!" +:+ id +:+ ":" +:+ print_unsigned controlPort +:+ newline.

(** What [main] decides from its arguments before it listens: to exit with a
    status and a message, or to serve with an id, an information and perhaps
    the port of a mapper. *)
Inductive start : Type :=
| Exit (status : Z) (message : string)
| Serve (id info : string) (mapperPort : option string).

Definition check_arguments (argv : list string) : option start :=
  match argv with
  | _ :: id :: info :: ([] | [_]) as rest =>
      if contains_invalid_characters id || contains_invalid_characters info
      then Some (Exit 2 ("Invalid char in parameter" +:+ newline))
      else
        match rest with
        | mapperPort :: _ =>
            valid ← is_valid_port_number mapperPort;
            if negb valid then Some (Exit 3 ("Invalid port" +:+ newline))
            else Some (Serve id info (Some mapperPort))
        | [] => Some (Serve id info None)
        end
  | _ => Some (Exit 1 ("Usage: control2310 id info [mapper]" +:+ newline))
  end.

End ControlStart.

(** ** The servers as the roc meets them *)

(** The strings without a newline. *)
Definition line_free (s : string) : bool :=
  all_chars (λ c, negb (Ascii.eqb c LF)) s.

(** The bytes a handler sends in one turn of its loop. *)
Definition sent (out : list event) : string :=
  fold_right String.append EmptyString (response out).

(** What [read_line] returns to the roc after a mapper in state [d], or a
    control in state [g], has read [request] as one chunk and answered; a
    server that sends nothing leaves the roc waiting, and [read_line] fails
    only once the connection is closed. *)
Definition mapper_reply (d : Mapper.Directory) (request : string)
  : option string :=
  '(_, out) ← Mapper.client_step request d;
  fst <$> Roc.read_line (sent out).


(** The airports the roc asks the mapper about, and what it asks. *)
Definition is_port (airport : string) : bool :=
  bool_decide (Roc.is_valid_port_number airport = Some true).

Definition lookup_request (airport : string) : string :=
  "?" +:+ airport +:+ newline.

(** The text the mapper answers a lookup with, without its newline. *)
Definition lookup_text (l : list Mapper.Airport) (id : string) : string :=
  match list_find (λ a, Mapper.name a = id) l with
  | Some (_, a) => Mapper.portNumber a
  | None => ";"
  end.

(** * Properties *)

(** ** Facts about [strcmp] *)

Section Strcmp.

Local Open Scope Z_scope.

Lemma byte_inj c1 c2 : byte c1 = byte c2 → c1 = c2.
Proof.
  unfold byte. intros H.
  rewrite <- (ascii_N_embedding c1), <- (ascii_N_embedding c2).
  by rewrite H.
Qed.

Lemma strcmp_range s1 s2 : -1 ≤ strcmp s1 s2 ≤ 1.
Proof.
  revert s2. induction s1 as [|c1 r1 IH]; intros [|c2 r2]; simpl; try lia.
  destruct (N.compare _ _); [apply IH | lia | lia].
Qed.

Lemma strcmp_refl s : strcmp s s = 0.
Proof. induction s as [|c r IH]; simpl; [done|]. by rewrite N.compare_refl. Qed.

Lemma strcmp_eq s1 s2 : strcmp s1 s2 = 0 ↔ s1 = s2.
Proof.
  split; [|intros ->; apply strcmp_refl].
  revert s2. induction s1 as [|c1 r1 IH]; intros [|c2 r2]; simpl; try done.
  destruct (N.compare_spec (byte c1) (byte c2)) as [E| |]; try done.
  intros H. apply IH in H. apply byte_inj in E. by subst.
Qed.

(** [strcmp] orders strings as the lexicographic order of the Standard
    Library does. *)
Lemma strcmp_compare s1 s2 :
  strcmp s1 s2 = match String.compare s1 s2 with Eq => 0 | Lt => -1 | Gt => 1 end.
Proof.
  revert s2. induction s1 as [|c1 r1 IH]; intros [|c2 r2]; simpl; try done.
  unfold Ascii.compare, byte.
  destruct (N.compare (N_of_ascii c1) (N_of_ascii c2)); [apply IH|done|done].
Qed.

Lemma strcmp_antisym s1 s2 : strcmp s2 s1 = - strcmp s1 s2.
Proof.
  revert s2. induction s1 as [|c1 r1 IH]; intros [|c2 r2]; simpl; try done.
  rewrite (N.compare_antisym (byte c1) (byte c2)).
  destruct (N.compare (byte c1) (byte c2)); simpl; [apply IH|done|done].
Qed.

Lemma strcmp_le_trans s1 s2 s3 :
  strcmp s1 s2 ≤ 0 → strcmp s2 s3 ≤ 0 → strcmp s1 s3 ≤ 0.
Proof.
  revert s2 s3.
  induction s1 as [|c1 r1 IH]; intros [|c2 r2] [|c3 r3]; simpl; try lia.
  destruct (N.compare_spec (byte c1) (byte c2)) as [E12|L12|G12];
    destruct (N.compare_spec (byte c2) (byte c3)) as [E23|L23|G23];
    destruct (N.compare_spec (byte c1) (byte c3)) as [E13|L13|G13];
    try lia.
  apply IH.
Qed.

Lemma strcmp_lt_le_trans s1 s2 s3 :
  strcmp s1 s2 < 0 → strcmp s2 s3 ≤ 0 → strcmp s1 s3 < 0.
Proof.
  intros H12 H23.
  assert (H13 : strcmp s1 s3 ≤ 0) by (eapply strcmp_le_trans; [|done]; lia).
  destruct (Z.eq_dec (strcmp s1 s3) 0) as [E|]; [|lia].
  apply strcmp_eq in E. subst s3.
  rewrite (strcmp_antisym s1 s2) in H23. lia.
Qed.

End Strcmp.


(** ** The registry array and the list it holds *)

Section RegistryFacts.

Context {E : Type} (key : E → string).

Implicit Types (arr : list (option E)) (l : list E) (k : string) (e : E).

Lemma represents_length arr num l : represents arr num l → length l = num.
Proof.
  intros [Htake Hle].
  rewrite <- (length_fmap Some l), <- Htake, length_take. lia.
Qed.

Lemma represents_deref arr num l i :
  represents arr num l → i < num → deref arr i = l !! i.
Proof.
  intros [Htake Hle] Hi. unfold deref.
  rewrite <- (lookup_take_lt arr num i Hi), Htake, list_lookup_fmap.
  by destruct (l !! i).
Qed.

Lemma represents_contents arr num l :
  represents arr num l → contents arr num = l.
Proof.
  intros [Htake _]. unfold contents. rewrite Htake.
  clear Htake. induction l as [|x l IH]; csimpl; [done|]. by rewrite IH.
Qed.

Lemma represents_unique arr num l1 l2 :
  represents arr num l1 → represents arr num l2 → l1 = l2.
Proof.
  intros H1 H2.
  by rewrite <- (represents_contents _ _ _ H1), <- (represents_contents _ _ _ H2).
Qed.

Lemma insertion_index_spec k arr num l :
  represents arr num l →
  ∀ fuel i, i + fuel = num →
    insertion_index key k arr i fuel = Some (i + scan key k (drop i l)).
Proof.
  intros Hrep fuel. pose proof (represents_length _ _ _ Hrep) as Hlen.
  induction fuel as [|fuel IH]; intros i Hi; simpl.
  - rewrite drop_ge by lia. simpl. f_equal. lia.
  - rewrite (represents_deref _ _ _ _ Hrep) by lia.
    destruct (lookup_lt_is_Some_2 l i) as [e He]; [lia|].
    rewrite He. simpl. rewrite (drop_S _ _ _ He). simpl.
    destruct (0 <=? strcmp k (key e))%Z.
    + rewrite IH by lia. f_equal. lia.
    + f_equal. lia.
Qed.

Lemma shift_right_spec insertionIndex count :
  ∀ arr, insertionIndex + count < length arr →
    shift_right arr insertionIndex count
    = Some (take (S insertionIndex) arr
            ++ take count (drop insertionIndex arr)
            ++ drop (S (insertionIndex + count)) arr).
Proof.
  induction count as [|count IH]; intros arr Hlen; simpl.
  - rewrite Nat.add_0_r. by rewrite take_drop.
  - destruct (lookup_lt_is_Some_2 arr (insertionIndex + count)) as [v Hv]; [lia|].
    rewrite Hv. simpl. unfold store.
    destruct (decide (S (insertionIndex + count) < length arr)); [|lia].
    simpl. rewrite IH by (rewrite length_insert; lia).
    f_equal.
    rewrite take_insert_ge by lia.
    rewrite (drop_insert_ge _ insertionIndex) by lia.
    rewrite take_insert_ge by lia.
    rewrite (drop_insert_ge _ (S (insertionIndex + count))) by lia.
    rewrite Nat.sub_diag.
    destruct (lookup_lt_is_Some_2 arr (S (insertionIndex + count)))
      as [y Hy]; [lia|].
    rewrite (drop_S _ _ _ Hy). simpl.
    rewrite (take_S_r (drop insertionIndex arr) count v)
      by (by rewrite lookup_drop).
    rewrite <- app_assoc. simpl.
    by replace (insertionIndex + S count) with (S (insertionIndex + count)) by lia.
Qed.

Lemma scan_le k l : scan key k l ≤ length l.
Proof.
  induction l as [|e r IH]; simpl; [lia|].
  destruct (0 <=? strcmp k (key e))%Z; lia.
Qed.

Lemma insert_ordered_spec k e arr num l :
  represents arr num l → num < length arr →
  ∃ arr', insert_ordered key k e arr num = Some (arr', S num)
          ∧ represents arr' (S num) (place key k e l)
          ∧ length arr' = length arr.
Proof.
  intros Hrep Hroom. pose proof (represents_length _ _ _ Hrep) as Hlen.
  pose proof (scan_le k l) as Hscan.
  unfold insert_ordered.
  rewrite (insertion_index_spec k arr num l Hrep num 0) by lia.
  simpl. rewrite drop_0. set (idx := scan key k l) in *.
  rewrite shift_right_spec by lia. simpl.
  replace (idx + (num - idx)) with num by lia.
  destruct (lookup_lt_is_Some_2 arr idx) as [y Hy]; [lia|].
  rewrite (take_S_r _ _ _ Hy), <- app_assoc. simpl.
  unfold store.
  rewrite !length_app, length_take. simpl.
  destruct (decide _) as [_|Hn]; [|exfalso; apply Hn; lia].
  simpl. eexists. split; [done|].
  assert (Hidx : length (take idx arr) = idx) by (rewrite length_take; lia).
  replace (<[idx:=Some e]> (take idx arr ++ y :: take (num - idx) (drop idx arr)
             ++ drop (S num) arr))
    with (take idx arr ++ Some e :: take (num - idx) (drop idx arr)
             ++ drop (S num) arr).
  2:{ symmetry. rewrite insert_app_r_alt by (rewrite Hidx; lia).
      by rewrite Hidx, Nat.sub_diag. }
  destruct Hrep as [Htake Hle].
  assert (Hfront : take idx arr = Some <$> take idx l).
  { rewrite fmap_take, <- Htake, take_take. f_equal. lia. }
  assert (Hback : take (num - idx) (drop idx arr) = Some <$> drop idx l).
  { rewrite take_drop_commute, fmap_drop, <- Htake. do 2 f_equal. lia. }
  split; [split|].
  - unfold place. fold idx.
    rewrite fmap_app, fmap_cons, <- Hfront, <- Hback.
    change (take idx arr ++ Some e :: take (num - idx) (drop idx arr)
              ++ drop (S num) arr)
      with (take idx arr ++ (Some e :: take (num - idx) (drop idx arr))
              ++ drop (S num) arr).
    rewrite app_assoc.
    apply take_app_length'.
    rewrite length_app. simpl. rewrite Hidx, length_take, length_drop. lia.
  - rewrite length_app. simpl. rewrite length_app, Hidx, length_take,
      !length_drop. lia.
  - rewrite length_app. simpl. rewrite length_app, Hidx, length_take,
      !length_drop. lia.
Qed.

Lemma insert_ordered_full k e arr num l :
  represents arr num l → num = length arr →
  insert_ordered key k e arr num = None.
Proof.
  intros Hrep Hfull. pose proof (represents_length _ _ _ Hrep) as Hlen.
  pose proof (scan_le k l) as Hscan.
  unfold insert_ordered.
  rewrite (insertion_index_spec k arr num l Hrep num 0) by lia.
  simpl. rewrite drop_0. set (idx := scan key k l) in *.
  destruct (num - idx) as [|count] eqn:Hcount; simpl.
  - unfold store. destruct (decide _); [lia|done].
  - destruct (lookup_lt_is_Some_2 arr (idx + count)) as [v Hv]; [lia|].
    rewrite Hv. simpl. unfold store. destruct (decide _); [lia|done].
Qed.

Lemma print_entries_spec (fmt : E → string) arr num l :
  represents arr num l →
  ∀ fuel i, i + fuel = num →
    print_entries fmt arr i fuel = Some (fmt <$> drop i l).
Proof.
  intros Hrep fuel. pose proof (represents_length _ _ _ Hrep) as Hlen.
  induction fuel as [|fuel IH]; intros i Hi; simpl.
  - by rewrite drop_ge by lia.
  - rewrite (represents_deref _ _ _ _ Hrep) by lia.
    destruct (lookup_lt_is_Some_2 l i) as [e He]; [lia|].
    rewrite He. simpl. rewrite IH by lia. simpl.
    by rewrite (drop_S _ _ _ He).
Qed.

(** *** The place of the new entry *)

#[local] Instance key_le_trans : Transitive (key_le key).
Proof. intros a b c. unfold key_le. apply strcmp_le_trans. Qed.

Lemma place_nil k e : place key k e [] = [e].
Proof. done. Qed.

Lemma place_cons k e x r :
  place key k e (x :: r)
  = if (0 <=? strcmp k (key x))%Z then x :: place key k e r else e :: x :: r.
Proof. unfold place. simpl. by destruct (0 <=? strcmp k (key x))%Z. Qed.

Lemma scan_front k l :
  Forall (λ x, (strcmp (key x) k ≤ 0)%Z) (take (scan key k l) l).
Proof.
  induction l as [|x r IH]; simpl; [constructor|].
  destruct (0 <=? strcmp k (key x))%Z eqn:Hx; simpl; constructor; [|done].
  apply Z.leb_le in Hx. rewrite (strcmp_antisym k (key x)). lia.
Qed.

Lemma scan_back k l :
  sorted key l → Forall (λ x, (strcmp k (key x) < 0)%Z) (drop (scan key k l) l).
Proof.
  induction l as [|x r IH]; intros Hs; simpl; [constructor|].
  destruct (0 <=? strcmp k (key x))%Z eqn:Hx; simpl.
  - apply IH. by inversion Hs.
  - apply Z.leb_gt in Hx. constructor; [done|].
    apply Sorted_StronglySorted in Hs; [|apply _].
    apply StronglySorted_inv in Hs as [_ Hall].
    eapply Forall_impl; [exact Hall|]. intros y Hy.
    eapply strcmp_lt_le_trans; [exact Hx|exact Hy].
Qed.

Lemma place_sorted k e l :
  sorted key l → key e = k → sorted key (place key k e l).
Proof.
  intros Hs Hk. induction l as [|x r IH].
  - repeat constructor.
  - rewrite place_cons.
    destruct (0 <=? strcmp k (key x))%Z eqn:Hx.
    + apply Z.leb_le in Hx.
      apply Sorted_inv in Hs as [Hr Hhd]. constructor; [by apply IH|].
      destruct r as [|y r']; [constructor|].
      * unfold key_le. rewrite Hk, (strcmp_antisym k (key x)). lia.
      * rewrite place_cons. destruct (0 <=? strcmp k (key y))%Z.
        -- constructor. by inversion Hhd.
        -- constructor. unfold key_le.
           rewrite Hk, (strcmp_antisym k (key x)). lia.
    + apply Z.leb_gt in Hx. constructor; [done|].
      constructor. unfold key_le. rewrite Hk. lia.
Qed.

Lemma place_length k e l : length (place key k e l) = S (length l).
Proof.
  unfold place. rewrite length_app. simpl.
  rewrite length_take, length_drop. pose proof (scan_le k l). lia.
Qed.

Lemma place_perm k e l : place key k e l ≡ₚ e :: l.
Proof.
  unfold place. rewrite <- Permutation_middle. by rewrite take_drop.
Qed.

Lemma represents_room arr num l :
  represents arr num l → num < length arr ∨ num = length arr.
Proof. intros [_ Hle]. lia. Qed.

(** Where the new entry stands in a sorted list. *)
Lemma place_split k e l :
  sorted key l → key e = k →
  ∃ l1 l2,
    l = l1 ++ l2 ∧ place key k e l = l1 ++ e :: l2
    ∧ Forall (λ x, (strcmp (key x) k ≤ 0)%Z) l1
    ∧ Forall (λ x, (strcmp k (key x) < 0)%Z) l2
    ∧ sorted key (l1 ++ e :: l2).
Proof.
  intros Hs Hk.
  exists (take (scan key k l) l), (drop (scan key k l) l).
  split; [by rewrite take_drop|]. split; [done|].
  split; [apply scan_front|]. split; [by apply scan_back|].
  by apply place_sorted.
Qed.

(** The insertion step, on a sorted array with a free slot. *)
Lemma insert_ordered_sorted k e arr num l :
  represents arr num l → sorted key l → num < length arr → key e = k →
  ∃ arr' l1 l2,
    insert_ordered key k e arr num = Some (arr', S num)
    ∧ l = l1 ++ l2
    ∧ represents arr' (S num) (l1 ++ e :: l2)
    ∧ length arr' = length arr
    ∧ Forall (λ x, (strcmp (key x) k ≤ 0)%Z) l1
    ∧ Forall (λ x, (strcmp k (key x) < 0)%Z) l2
    ∧ sorted key (l1 ++ e :: l2).
Proof.
  intros Hrep Hs Hroom Hk.
  destruct (insert_ordered_spec k e arr num l Hrep Hroom)
    as (arr' & Hins & Hrep' & Hlen').
  exists arr', (take (scan key k l) l), (drop (scan key k l) l).
  split; [done|]. split; [by rewrite take_drop|].
  split; [done|]. split; [done|].
  split; [apply scan_front|]. split; [by apply scan_back|].
  by apply place_sorted.
Qed.

End RegistryFacts.

(** ** [strtok] and the fields of a payload *)

Section Tokens.

Lemma is_delim_colon c : is_delim ":" c = Ascii.eqb c COLON.
Proof. simpl. apply orb_false_r. Qed.

Lemma fields_nil : fields EmptyString = [].
Proof. done. Qed.

Lemma fields_colon r : fields (String COLON r) = fields r.
Proof. done. Qed.

Lemma fields_not_empty s field : field ∈ fields s → field ≠ EmptyString.
Proof. unfold fields. rewrite list_elem_of_filter. by intros [? _]. Qed.

Lemma fields_skip s : fields (skip_delims ":" s) = fields s.
Proof.
  induction s as [|c r IH]; [done|].
  cbn [skip_delims]. rewrite is_delim_colon.
  destruct (Ascii.eqb c COLON) eqn:Hc; [|done].
  apply Ascii.eqb_eq in Hc. subst c. by rewrite IH, fields_colon.
Qed.

Lemma skip_delims_head s c r :
  skip_delims ":" s = String c r → Ascii.eqb c COLON = false.
Proof.
  induction s as [|c' r' IH]; [done|].
  cbn [skip_delims]. rewrite is_delim_colon.
  destruct (Ascii.eqb c' COLON) eqn:Hc; [done|].
  intros Heq. injection Heq as <- <-. done.
Qed.

Lemma split_token_cons delim c r :
  split_token delim (String c r)
  = if is_delim delim c then (EmptyString, r)
    else let '(tok, save) := split_token delim r in (String c tok, save).
Proof. done. Qed.

Lemma split_colon_cons c r :
  split_colon (String c r)
  = if Ascii.eqb c COLON then EmptyString :: split_colon r
    else match split_colon r with
         | field :: others => String c field :: others
         | [] => [String c EmptyString]
         end.
Proof. done. Qed.

Lemma split_token_fields r :
  ∀ c tok save,
    Ascii.eqb c COLON = false →
    split_token ":" (String c r) = (tok, save) →
    tok ≠ EmptyString
    ∧ ∃ others, split_colon (String c r) = tok :: others
                ∧ filter (λ field, field ≠ EmptyString) others = fields save.
Proof.
  induction r as [|c' r' IH]; intros c tok save Hc.
  - rewrite split_token_cons, split_colon_cons, is_delim_colon, Hc. simpl.
    intros [= <- <-]. split; [done|]. by exists [].
  - rewrite split_token_cons, (split_colon_cons c), is_delim_colon, Hc.
    destruct (split_token ":" (String c' r')) as [tok' save'] eqn:Hsplit.
    intros [= <- <-]. split; [done|].
    destruct (Ascii.eqb c' COLON) eqn:Hc'.
    + rewrite split_token_cons, is_delim_colon, Hc' in Hsplit.
      injection Hsplit as <- <-.
      rewrite split_colon_cons, Hc'. by exists (split_colon r').
    + destruct (IH c' tok' save' Hc' Hsplit) as (_ & others & Hsc & Hf).
      rewrite Hsc. by exists others.
Qed.

(** [strtok] on a payload returns its first field and leaves the other
    fields in the save pointer. *)
Lemma strtok_fields s save0 :
  ∃ save, strtok (Some s) ":" save0 = (head (fields s), save)
          ∧ fields save = tail (fields s).
Proof.
  unfold strtok. rewrite <- (fields_skip s).
  destruct (skip_delims ":" s) as [|c r] eqn:Hskip.
  - by exists EmptyString.
  - pose proof (skip_delims_head _ _ _ Hskip) as Hc.
    destruct (split_token ":" (String c r)) as [tok save] eqn:Hsplit.
    destruct (split_token_fields r c tok save Hc Hsplit)
      as (Htok & others & Hsc & Hf).
    assert (Hfields : fields (String c r) = tok :: fields save).
    { unfold fields at 1. by rewrite Hsc, filter_cons_True, Hf. }
    exists save. by rewrite Hfields.
Qed.

Lemma strtok_continue save delim :
  strtok None delim save = strtok (Some save) delim save.
Proof. done. Qed.

Lemma cut_last_app s c : cut_last (s +:+ String c EmptyString) = Some s.
Proof.
  induction s as [|c' r IH]; [done|].
  change (cut_last (String c' (r +:+ String c EmptyString)) = Some (String c' r)).
  destruct (r +:+ String c EmptyString) as [|c'' t] eqn:Happ.
  { by destruct r. }
  change (cut_last (String c' (String c'' t)))
    with (r' ← cut_last (String c'' t); Some (String c' r')).
  by rewrite IH.
Qed.

Lemma cut_last_newline s : cut_last (s +:+ newline) = Some s.
Proof. apply cut_last_app. Qed.

Lemma cut_last_inv s s' :
  cut_last s = Some s' → s = s' +:+ String (last_char s) EmptyString.
Proof.
  revert s'. induction s as [|c r IH]; intros s'; [done|].
  destruct r as [|c' r'].
  - intros [= <-]. done.
  - change (cut_last (String c (String c' r')))
      with (r0 ← cut_last (String c' r'); Some (String c r0)).
    change (last_char (String c (String c' r')))
      with (last_char (String c' r')).
    destruct (cut_last (String c' r')) as [r''|] eqn:Hcut; [|done].
    intros Heq. cbv [mbind option_bind] in Heq. injection Heq as <-.
    change (String c (String c' r')
            = String c (r'' +:+ String (last_char (String c' r')) EmptyString)).
    f_equal. by apply IH.
Qed.

End Tokens.

(** ** The mapper *)

Section MapperFacts.

Import Mapper.

Implicit Types (d : Directory) (l : list Airport) (id : string).

Lemma get_airport_index_from_spec id arr num l :
  represents arr num l →
  ∀ fuel i, i + fuel = num →
    get_airport_index_from (Some id) arr i fuel
    = Some (match list_find (λ a, name a = id) (drop i l) with
            | Some (j, _) => Z.of_nat (i + j)
            | None => (-1)%Z
            end).
Proof.
  intros Hrep fuel. pose proof (represents_length _ _ _ Hrep) as Hlen.
  induction fuel as [|fuel IH]; intros i Hi.
  - by rewrite drop_ge by lia.
  - cbn [get_airport_index_from].
    rewrite (represents_deref _ _ _ _ Hrep) by lia.
    destruct (lookup_lt_is_Some_2 l i) as [a Ha]; [lia|].
    rewrite Ha, (drop_S _ _ _ Ha). cbn.
    destruct (Z.eqb_spec (strcmp id (name a)) 0) as [Heq|Hne].
    + apply strcmp_eq in Heq. rewrite decide_True by done.
      do 2 f_equal. lia.
    + rewrite decide_False by (intros <-; apply Hne, strcmp_refl).
      rewrite IH by lia.
      destruct (list_find _ (drop (S i) l)) as [[j x]|]; cbn; [|done].
      do 2 f_equal. lia.
Qed.

Lemma get_airport_index_spec id d l :
  holds d l →
  get_airport_index (Some id) (airports d) (numAirports d)
  = Some (match list_find (λ a, name a = id) l with
          | Some (j, _) => Z.of_nat j
          | None => (-1)%Z
          end).
Proof.
  intros Hrep. unfold get_airport_index.
  rewrite (get_airport_index_from_spec id _ _ l Hrep) by lia.
  by rewrite drop_0.
Qed.

Lemma get_airport_index_null d l :
  holds d l →
  get_airport_index None (airports d) (numAirports d)
  = match l with [] => Some (-1)%Z | _ :: _ => None end.
Proof.
  intros Hrep. pose proof (represents_length _ _ _ Hrep) as Hlen.
  unfold get_airport_index. destruct l as [|a l]; simpl in Hlen.
  - by rewrite <- Hlen.
  - rewrite <- Hlen. cbn [get_airport_index_from].
    rewrite (represents_deref _ _ _ _ Hrep) by lia. done.
Qed.

Lemma find_name_None id l :
  list_find (λ a, name a = id) l = None ↔ id ∉ name <$> l.
Proof.
  rewrite list_find_None, Forall_forall, list_elem_of_fmap. split.
  - intros H (a & -> & Ha). by apply (H a).
  - intros H a Ha Heq. apply H. by exists a.
Qed.

(** [add_airport] in terms of the fields of the command. *)
Lemma add_airport_fields command d l :
  holds d l →
  add_airport command d
  = match fields command with
    | [] => match l with [] => Some d | _ :: _ => None end
    | id :: rest =>
        if decide (id ∈ name <$> l) then Some d
        else match rest with
             | [] => Some d
             | port :: _ =>
                 if is_integer port then
                   '(airports', numAirports') ←
                     insert_ordered name id {| name := id; portNumber := port |}
                                    (airports d) (numAirports d);
                   Some {| airports := airports'; numAirports := numAirports' |}
                 else Some d
             end
    end.
Proof.
  intros Hrep. unfold add_airport.
  destruct (strtok_fields command EmptyString) as (save & -> & Hsave).
  destruct (fields command) as [|id rest] eqn:Hfields; cbn [head].
  - rewrite (get_airport_index_null d l Hrep).
    destruct l; [|done]. cbn.
    rewrite strtok_continue.
    destruct (strtok_fields save save) as (save' & -> & _).
    by rewrite Hsave.
  - rewrite (get_airport_index_spec id d l Hrep). cbn [mbind option_bind].
    destruct (list_find _ l) as [[j x]|] eqn:Hfind.
    + apply list_find_Some in Hfind as (Hj & Hx & _).
      rewrite decide_True.
      2:{ apply list_elem_of_fmap. exists x. split; [done|].
          by apply list_elem_of_lookup_2 in Hj. }
      destruct (Z.eqb_spec (Z.of_nat j) (-1)); [lia|done].
    + apply find_name_None in Hfind. rewrite decide_False by done.
      cbn [Z.eqb negb]. rewrite strtok_continue.
      destruct (strtok_fields save save) as (save' & -> & _).
      rewrite Hsave. cbn [tail].
      destruct rest as [|port rest']; [done|]. cbn [head].
      assert (Hport : port ≠ EmptyString).
      { apply (fields_not_empty command). rewrite Hfields.
        apply list_elem_of_further, list_elem_of_here. }
      destruct port as [|c port']; [done|].
      replace (strlen (String c port') <? 1) with false by done.
      cbn [orb]. by destruct (is_integer (String c port')).
Qed.

Lemma add_airport_inv command d l d' :
  holds d l → add_airport command d = Some d' →
  d' = d
  ∨ ∃ a, registration command = Some a
         ∧ (name a ∉ name <$> l)
         ∧ holds d' (place name (name a) a l)
         ∧ numAirports d' = S (numAirports d)
         ∧ length (airports d') = length (airports d).
Proof.
  intros Hrep. rewrite (add_airport_fields command d l Hrep).
  unfold registration.
  destruct (fields command) as [|id [|port rest]].
  - destruct l; [|done]. intros [= <-]. by left.
  - case_decide; intros [= <-]; by left.
  - case_decide as Hin; [intros [= <-]; by left|].
    destruct (is_integer port); [|intros [= <-]; by left].
    destruct (represents_room _ _ _ Hrep) as [Hroom|Hfull].
    + destruct (insert_ordered_spec name id {| name := id; portNumber := port |}
                  _ _ _ Hrep Hroom) as (arr' & -> & Hrep' & Hlen').
      cbn. intros [= <-]. right.
      by exists {| name := id; portNumber := port |}.
    + by rewrite (insert_ordered_full name id _ _ _ l Hrep Hfull).
Qed.

Lemma add_airport_room command d l :
  holds d l → numAirports d < length (airports d) → fields command ≠ [] →
  ∃ d', add_airport command d = Some d'
        ∧ holds d' (match registration command with
                    | Some a => insertIfAbsent a l
                    | None => l
                    end)
        ∧ (registration command = None → d' = d).
Proof.
  intros Hrep Hroom Hfields.
  rewrite (add_airport_fields command d l Hrep).
  unfold registration, insertIfAbsent.
  destruct (fields command) as [|id [|port rest]]; [done| |].
  - exists d. by case_decide.
  - destruct (is_integer port); cbn [name].
    + case_decide as Hin; [by exists d|].
      destruct (insert_ordered_spec name id {| name := id; portNumber := port |}
                  _ _ _ Hrep Hroom) as (arr' & -> & Hrep' & Hlen').
      cbn. by eexists.
    + exists d. by case_decide.
Qed.

(** Only a registration changes the directory. *)
Lemma handle_input_state message d d' out :
  handle_input message d = Some (d', out) →
  d' = d
  ∨ (char0 message = "!"%char ∧ out = []
     ∧ add_airport (from1 message) d = Some d').
Proof.
  unfold handle_input.
  destruct (Ascii.eqb (char0 message) "?").
  { destruct (get_airport_index _ _ _) as [index|]; [|done]. cbn.
    destruct (index =? -1)%Z; [intros [= <- _]; by left|].
    destruct (deref _ _); [|done]. cbn. intros [= <- _]. by left. }
  destruct (Ascii.eqb (char0 message) "!") eqn:Hbang.
  { apply Ascii.eqb_eq in Hbang.
    destruct (add_airport _ _) as [d1|]; [|done]. cbn.
    intros [= <- <-]. by right. }
  destruct (strcmp message "@" =? 0)%Z.
  { destruct (print_entries _ _ _ _); [|done]. cbn. intros [= <- _]. by left. }
  intros [= <- _]. by left.
Qed.

(** The directory is sorted and without duplicate ids in every reachable
    state, and keeps the size [main] gave it. *)
Lemma reachable_invariant d :
  reachable d →
  ∃ l, holds d l ∧ sorted name l ∧ NoDup (name <$> l)
       ∧ length (airports d) = maxAirports.
Proof.
  induction 1 as [|d message d' out _ (l & Hrep & Hs & Hnd & Hlen) Hstep].
  - exists []. repeat split; try done; try constructor.
    cbn. lia.
  - destruct (handle_input_state _ _ _ _ Hstep) as [->|(_ & _ & Hadd)];
      [by exists l|].
    destruct (add_airport_inv _ _ _ _ Hrep Hadd)
      as [->|(a & _ & Hnew & Hrep' & _ & Hlen')]; [by exists l|].
    exists (place name (name a) a l).
    split; [done|]. split; [by apply place_sorted|]. split; [|congruence].
    rewrite (place_perm name (name a) a l). cbn. by constructor.
Qed.

(** *** The handler on a line of each kind *)

Lemma client_step_dispatch chunk message d :
  cut_last chunk = Some message →
  message ≠ "?" → message ≠ "!" →
  client_step chunk d
  = '(d', out) ← handle_input message d;
    Some (d', TakeLock :: out ++ [ReleaseLock]).
Proof.
  intros Hcut Hq Hb. unfold client_step. rewrite Hcut. cbn [mbind option_bind].
  destruct message as [|c [|c' r]]; [done| |].
  - cbn [char0]. destruct (Ascii.eqb_spec c "?") as [->|_]; [done|].
    by destruct (Ascii.eqb_spec c "!") as [->|_].
  - replace (strlen (String c (String c' r)) <? 2) with false by done.
    by rewrite andb_false_r.
Qed.

Lemma client_step_lookup id d :
  id ≠ EmptyString →
  client_step (String "?" id +:+ newline) d
  = '(d', out) ← handle_input (String "?" id) d;
    Some (d', TakeLock :: out ++ [ReleaseLock]).
Proof.
  intros Hid. apply client_step_dispatch; [apply cut_last_app| |done].
  intros [= ->]. done.
Qed.

Lemma client_step_register payload d :
  payload ≠ EmptyString →
  client_step (String "!" payload +:+ newline) d
  = d' ← add_airport payload d; Some (d', [TakeLock; ReleaseLock]).
Proof.
  intros Hp.
  rewrite (client_step_dispatch _ (String "!" payload));
    [|apply cut_last_app|done|by intros [= ->]].
  unfold handle_input. cbn.
  by destruct (add_airport payload d).
Qed.

Lemma handle_input_lookup id d l :
  holds d l →
  handle_input (String "?" id) d
  = Some (d, [Fprintf (match list_find (λ a, name a = id) l with
                       | Some (_, a) => portNumber a
                       | None => ";"
                       end +:+ newline); Fflush]).
Proof.
  intros Hrep. unfold handle_input. cbn [char0 from1].
  replace (Ascii.eqb "?" "?") with true by done.
  rewrite (get_airport_index_spec id d l Hrep). cbn [mbind option_bind].
  destruct (list_find _ l) as [[i a]|] eqn:Hfind; [|done].
  apply list_find_Some in Hfind as (Hi & _ & _).
  destruct (Z.eqb_spec (Z.of_nat i) (-1)); [lia|].
  rewrite Nat2Z.id.
  rewrite (represents_deref _ _ _ _ Hrep)
    by (rewrite <- (represents_length _ _ _ Hrep); by eapply lookup_lt_Some).
  by rewrite Hi.
Qed.

Lemma handle_input_enumerate d l :
  holds d l →
  handle_input "@" d
  = Some (d, (Fprintf <$> (airport_line <$> l)) ++ [Fflush]).
Proof.
  intros Hrep. unfold handle_input. cbn.
  rewrite (print_entries_spec airport_line _ _ l Hrep) by lia.
  by rewrite drop_0.
Qed.

Lemma handle_input_other message d :
  char0 message ≠ "?"%char → char0 message ≠ "!"%char → message ≠ "@" →
  handle_input message d = Some (d, []).
Proof.
  intros Hq Hb Hat. unfold handle_input.
  destruct (Ascii.eqb_spec (char0 message) "?"); [done|].
  destruct (Ascii.eqb_spec (char0 message) "!"); [done|].
  destruct (Z.eqb_spec (strcmp message "@") 0) as [Heq|]; [|done].
  by apply strcmp_eq in Heq.
Qed.

Lemma client_step_lookup_found d l id i a :
  holds d l → id ≠ EmptyString →
  l !! i = Some a → name a = id →
  (∀ j b, l !! j = Some b → j < i → name b ≠ id) →
  client_step (String "?" id +:+ newline) d
  = Some (d, [TakeLock; Fprintf (portNumber a +:+ newline); Fflush;
              ReleaseLock]).
Proof.
  intros Hrep Hid Hi Ha Hfirst.
  rewrite client_step_lookup, (handle_input_lookup id d l Hrep) by done.
  assert (Hfind : list_find (λ a, name a = id) l = Some (i, a)).
  { apply list_find_Some. split; [done|]. split; [done|].
    intros j b Hj Hlt. by apply (Hfirst j b). }
  by rewrite Hfind.
Qed.

Lemma client_step_other d chunk message :
  cut_last chunk = Some message →
  char0 message ≠ "?"%char → char0 message ≠ "!"%char → message ≠ "@" →
  client_step chunk d = Some (d, [TakeLock; ReleaseLock]).
Proof.
  intros Hcut Hq Hb Hat.
  rewrite (client_step_dispatch chunk message d Hcut)
    by (intros ->; by apply Hq || by apply Hb).
  by rewrite handle_input_other.
Qed.

End MapperFacts.

(** ** The mapper: lookups, registrations and enumerations *)

Section MapperClaims.

Import Mapper.

(** C6: a lookup request [?<id>] with an id that is not empty is answered
    with the port of the first entry whose key is [<id>], followed by a
    newline, when there is such an entry, and with the single character [;]
    followed by a newline when no entry has that key; after [BNE] was
    registered with port [8001] the lookup [?BNE] yields [8001] and the
    lookup of an id that is not registered yields [;]. *)
Theorem lookup_response :
  (∀ d l id,
     holds d l → id ≠ EmptyString →
     (∀ i a,
        l !! i = Some a → name a = id →
        (∀ j b, l !! j = Some b → j < i → name b ≠ id) →
        client_step (String "?" id +:+ newline) d
        = Some (d, [TakeLock; Fprintf (portNumber a +:+ newline); Fflush;
                    ReleaseLock]))
     ∧ ((∀ a, a ∈ l → name a ≠ id) →
        client_step (String "?" id +:+ newline) d
        = Some (d, [TakeLock; Fprintf (";" +:+ newline); Fflush;
                    ReleaseLock])))
  ∧ client_step ("!BNE:8001" +:+ newline) initial
    = Some (with_bne, [TakeLock; ReleaseLock])
  ∧ client_step ("?BNE" +:+ newline) with_bne
    = Some (with_bne, [TakeLock; Fprintf ("8001" +:+ newline); Fflush;
                       ReleaseLock])
  ∧ client_step ("?XYZ" +:+ newline) with_bne
    = Some (with_bne, [TakeLock; Fprintf (";" +:+ newline); Fflush;
                       ReleaseLock]).
Proof.
  split; [|by vm_compute].
  intros d l id Hrep Hid. split.
  - intros i a Hi Ha Hfirst. by apply (client_step_lookup_found d l id i a).
  - intros Hnone.
    rewrite client_step_lookup, (handle_input_lookup id d l Hrep) by done.
    assert (Hfind : list_find (λ a, name a = id) l = None).
    { apply list_find_None, Forall_forall. exact Hnone. }
    by rewrite Hfind.
Qed.

Lemma lookup_response_witness :
  holds with_bne [bne]
  ∧ client_step ("?BNE" +:+ newline) with_bne
    = Some (with_bne, [TakeLock; Fprintf ("8001" +:+ newline); Fflush;
                       ReleaseLock]).
Proof.
  assert (Hrep : holds with_bne [bne]) by (split; [reflexivity|cbn; lia]).
  split; [exact Hrep|].
  apply (proj1 (proj1 lookup_response with_bne [bne] "BNE" Hrep
                  ltac:(discriminate)) 0 bne);
    [reflexivity | reflexivity | intros; lia].
Defined.

(** C5: on the mapper a registration whose id is the key of an entry already
    present changes nothing, whatever its port; no two entries of a reachable
    directory share a key; and a lookup of that id after the second
    registration still returns the port registered first. *)
Theorem duplicate_registration_noop :
  (∀ d l payload id rest i a,
     holds d l → fields payload = id :: rest →
     l !! i = Some a → name a = id →
     (∀ j b, l !! j = Some b → j < i → name b ≠ id) →
     client_step (String "!" payload +:+ newline) d
     = Some (d, [TakeLock; ReleaseLock])
     ∧ client_step (String "?" id +:+ newline) d
       = Some (d, [TakeLock; Fprintf (portNumber a +:+ newline); Fflush;
                   ReleaseLock]))
  ∧ (∀ d, reachable d → ∃ l, holds d l ∧ NoDup (name <$> l))
  ∧ client_step ("!BNE:8001" +:+ newline) initial
    = Some (with_bne, [TakeLock; ReleaseLock])
  ∧ client_step ("!BNE:9000" +:+ newline) with_bne
    = Some (with_bne, [TakeLock; ReleaseLock])
  ∧ client_step ("?BNE" +:+ newline) with_bne
    = Some (with_bne, [TakeLock; Fprintf ("8001" +:+ newline); Fflush;
                       ReleaseLock]).
Proof.
  split; [|split; [|by vm_compute]].
  - intros d l payload id rest i a Hrep Hfields Hi Ha Hfirst.
    assert (Hid : id ≠ EmptyString).
    { apply (fields_not_empty payload). rewrite Hfields. apply list_elem_of_here. }
    assert (Hpayload : payload ≠ EmptyString) by (by intros ->).
    split.
    + rewrite client_step_register, (add_airport_fields payload d l Hrep),
        Hfields by done.
      rewrite decide_True; [done|].
      apply list_elem_of_fmap. exists a. split; [done|].
      by apply list_elem_of_lookup_2 in Hi.
    + by apply (client_step_lookup_found d l id i a).
  - intros d Hreach.
    destruct (reachable_invariant d Hreach) as (l & Hrep & _ & Hnd & _).
    by exists l.
Qed.

Lemma duplicate_registration_noop_witness :
  holds with_bne [bne]
  ∧ client_step ("!BNE:9000" +:+ newline) with_bne
    = Some (with_bne, [TakeLock; ReleaseLock])
  ∧ client_step ("?BNE" +:+ newline) with_bne
    = Some (with_bne, [TakeLock; Fprintf ("8001" +:+ newline); Fflush;
                       ReleaseLock]).
Proof.
  assert (Hrep : holds with_bne [bne]) by (split; [reflexivity|cbn; lia]).
  split; [exact Hrep|].
  apply (proj1 duplicate_registration_noop with_bne [bne] "BNE:9000" "BNE"
           ["9000"] 0 bne Hrep);
    [reflexivity | reflexivity | reflexivity | intros; lia].
Defined.



(** C3, as the mapper has it: a registration line [!<payload>] whose payload
    has a field is accepted exactly when its first two non-empty fields exist
    and the second is all digits; an accepted registration inserts the first
    field as id with the second as port unless the id is present; every
    other one is dropped, with no response and no change; the port is not
    checked against a range, empty fields are skipped and fields after the
    second are ignored. *)
Theorem registration_accepted d l payload :
  holds d l → numAirports d < length (airports d) → fields payload ≠ [] →
  ∃ d', client_step (String "!" payload +:+ newline) d
        = Some (d', [TakeLock; ReleaseLock])
        ∧ holds d' (match registration payload with
                    | Some a => insertIfAbsent a l
                    | None => l
                    end)
        ∧ (registration payload = None → d' = d).
Proof.
  intros Hrep Hroom Hfields.
  assert (Hpayload : payload ≠ EmptyString) by (by intros ->).
  destruct (add_airport_room payload d l Hrep Hroom Hfields)
    as (d' & Hadd & Hrep' & Hsame).
  exists d'. by rewrite client_step_register, Hadd.
Qed.

Lemma registration_accepted_witness :
  holds initial [] ∧ numAirports initial < length (airports initial)
  ∧ fields "BNE:8001" ≠ []
  ∧ ∃ d', client_step ("!BNE:8001" +:+ newline) initial
          = Some (d', [TakeLock; ReleaseLock])
          ∧ holds d' [bne]
          ∧ (registration "BNE:8001" = None → d' = initial).
Proof.
  assert (Hrep : holds initial []) by (split; [reflexivity|cbn; lia]).
  assert (Hroom : numAirports initial < length (airports initial))
    by (cbn; lia).
  assert (Hfields : fields "BNE:8001" ≠ []) by discriminate.
  split; [exact Hrep|]. split; [exact Hroom|]. split; [exact Hfields|].
  exact (registration_accepted initial [] "BNE:8001" Hrep Hroom Hfields).
Defined.

(** C3 as stated fails: the mapper registers a port outside 1..65535, a
    payload with more than one colon, and a payload that starts with a
    colon. *)
Lemma registration_claim_counterexample :
  (claimed_registration "BNE:0" = None
   ∧ ∃ d', client_step ("!BNE:0" +:+ newline) initial
           = Some (d', [TakeLock; ReleaseLock])
           ∧ contents (airports d') (numAirports d')
             = [{| name := "BNE"; portNumber := "0" |}])
  ∧ (claimed_registration "BNE:99999" = None
     ∧ ∃ d', client_step ("!BNE:99999" +:+ newline) initial
             = Some (d', [TakeLock; ReleaseLock])
             ∧ contents (airports d') (numAirports d')
               = [{| name := "BNE"; portNumber := "99999" |}])
  ∧ (claimed_registration "BNE:80:x" = None
     ∧ ∃ d', client_step ("!BNE:80:x" +:+ newline) initial
             = Some (d', [TakeLock; ReleaseLock])
             ∧ contents (airports d') (numAirports d')
               = [{| name := "BNE"; portNumber := "80" |}])
  ∧ (claimed_registration ":BNE:80" = None
     ∧ ∃ d', client_step ("!:BNE:80" +:+ newline) initial
             = Some (d', [TakeLock; ReleaseLock])
             ∧ contents (airports d') (numAirports d')
               = [{| name := "BNE"; portNumber := "80" |}]).
Proof.
  repeat split; try reflexivity.
  - exists {| airports := Some {| name := "BNE"; portNumber := "0" |}
                            :: replicate 999 None; numAirports := 1 |}.
    by vm_compute.
  - exists {| airports := Some {| name := "BNE"; portNumber := "99999" |}
                            :: replicate 999 None; numAirports := 1 |}.
    by vm_compute.
  - exists {| airports := Some {| name := "BNE"; portNumber := "80" |}
                            :: replicate 999 None; numAirports := 1 |}.
    by vm_compute.
  - exists {| airports := Some {| name := "BNE"; portNumber := "80" |}
                            :: replicate 999 None; numAirports := 1 |}.
    by vm_compute.
Qed.

End MapperClaims.

(** ** The control *)

Section ControlFacts.

Import Control.

Implicit Types (g : Log) (l : list string) (info chunk : string).

Lemma has_invalid_char_cons c r n :
  has_invalid_char (String c r) (S n)
  = if forbidden c then true else has_invalid_char r n.
Proof. done. Qed.

Lemma terminated_payload_spec s :
  s ≠ EmptyString →
  terminated_payload s
  = Ascii.eqb (last_char s) LF && negb (has_invalid_char s (strlen s - 1)).
Proof.
  induction s as [|c r IH]; [done|]. intros _.
  destruct r as [|c' r'].
  - cbn. by rewrite andb_true_r.
  - change (terminated_payload (String c (String c' r')))
      with (negb (forbidden c) && terminated_payload (String c' r')).
    change (last_char (String c (String c' r')))
      with (last_char (String c' r')).
    replace (strlen (String c (String c' r')) - 1)
      with (S (strlen (String c' r') - 1)) by (cbn; lia).
    rewrite has_invalid_char_cons, IH by done.
    destruct (forbidden c); cbn [negb andb]; [by rewrite andb_false_r|done].
Qed.

(** [verify_message] accepts exactly the chunks framed as the specification
    says. *)
Lemma verify_message_framed s : verify_message s = well_framed s.
Proof.
  unfold verify_message, well_framed.
  destruct s as [|c [|c' r]].
  - done.
  - cbn [strlen String.length Nat.ltb Nat.leb terminated_payload].
    unfold newline. cbn [String.eqb].
    destruct (Ascii.eqb c LF); [done|done].
  - replace (strlen (String c (String c' r)) <? 2) with false by done.
    rewrite terminated_payload_spec by done.
    replace (String.eqb (String c (String c' r)) newline) with false.
    2:{ symmetry. apply String.eqb_neq. unfold newline. congruence. }
    cbn [negb andb].
    by destruct (Ascii.eqb (last_char (String c (String c' r))) LF).
Qed.

Lemma verify_message_last s : verify_message s = true → last_char s = LF.
Proof.
  unfold verify_message.
  destruct (strlen s <? 2); [done|].
  destruct (Ascii.eqb_spec (last_char s) LF); done.
Qed.

Lemma verify_message_log : verify_message ("log" +:+ newline) = true.
Proof. done. Qed.

Lemma client_step_invalid info chunk g :
  well_framed chunk = false → client_step info chunk g = Some (g, [], Continue).
Proof.
  intros Hbad. unfold client_step. by rewrite verify_message_framed, Hbad.
Qed.


(** What a turn of the loop can be. *)
Lemma client_step_inv info chunk g l g' out fl :
  holds g l → client_step info chunk g = Some (g', out, fl) →
  (well_framed chunk = false ∧ g' = g ∧ out = [] ∧ fl = Continue)
  ∨ (chunk = "log" +:+ newline ∧ g' = g ∧ fl = Break
     ∧ out = TakeLock :: (Fprintf <$> (plane_line <$> l))
               ++ [Fprintf ("." +:+ newline); Fflush])
  ∨ (∃ plane, chunk = plane +:+ newline ∧ plane ≠ "log"
              ∧ well_framed chunk = true
              ∧ numPlanes g < length (planes g)
              ∧ holds g' (place id plane plane l)
              ∧ numPlanes g' = S (numPlanes g)
              ∧ length (planes g') = length (planes g)
              ∧ fl = Continue
              ∧ out = [TakeLock; Fprintf (info +:+ newline); Fflush;
                       ReleaseLock]).
Proof.
  intros Hrep Hstep.
  destruct (well_framed chunk) eqn:Hframed.
  2:{ rewrite (client_step_invalid info chunk g Hframed) in Hstep.
      injection Hstep as <- <- <-. by left. }
  right. revert Hstep. unfold client_step.
  rewrite verify_message_framed, Hframed. cbn [negb].
  destruct (cut_last chunk) as [plane|] eqn:Hcut; [|done].
  cbn [mbind option_bind].
  assert (Hchunk : chunk = plane +:+ newline).
  { rewrite (cut_last_inv _ _ Hcut) at 1.
    by rewrite (verify_message_last chunk)
      by (by rewrite verify_message_framed). }
  destruct (Z.eqb_spec (strcmp "log" plane) 0) as [Hlog|Hnlog].
  - apply strcmp_eq in Hlog. subst plane. subst chunk.
    rewrite (print_entries_spec plane_line _ _ l Hrep) by lia.
    rewrite drop_0. cbn. intros [= <- <- <-]. by left.
  - assert (Hne : plane ≠ "log")
      by (intros ->; by apply Hnlog).
    unfold add_plane.
    destruct (represents_room _ _ _ Hrep) as [Hroom|Hfull].
    + destruct (insert_ordered_spec id plane plane _ _ _ Hrep Hroom)
        as (arr' & -> & Hrep' & Hlen').
      cbn. intros [= <- <- <-]. right. by exists plane.
    + by rewrite (insert_ordered_full id plane plane _ _ l Hrep Hfull).
Qed.

(** The log is sorted in every reachable state, and keeps the size [main]
    gave it. *)
Lemma reachable_sorted info g :
  reachable info g →
  ∃ l, holds g l ∧ sorted id l ∧ length (planes g) = maxPlanes.
Proof.
  induction 1 as [|g chunk g' out fl _ (l & Hrep & Hs & Hlen) Hstep].
  - exists []. repeat split; try done; try constructor. cbn. lia.
  - destruct (client_step_inv _ _ _ _ _ _ _ Hrep Hstep)
      as [(_ & -> & _)|[(_ & -> & _)|(plane & _ & _ & _ & _ & Hrep' & _ & Hlen' & _)]];
      [by exists l | by exists l |].
    exists (place id plane plane l).
    split; [done|]. split; [by apply place_sorted|congruence].
Qed.


Lemma client_step_break info chunk g g' out :
  client_step info chunk g = Some (g', out, Break) →
  chunk = "log" +:+ newline.
Proof.
  unfold client_step.
  destruct (verify_message chunk) eqn:Hverify; [|done]. cbn [negb].
  destruct (cut_last chunk) as [plane|] eqn:Hcut; [|done].
  cbn [mbind option_bind].
  destruct (Z.eqb_spec (strcmp "log" plane) 0) as [Hlog|_].
  - intros _. apply strcmp_eq in Hlog. subst plane.
    rewrite (cut_last_inv _ _ Hcut). by rewrite (verify_message_last chunk).
  - by destruct (add_plane plane g).
Qed.



End ControlFacts.

(** ** Both servers *)

Section Servers.

Implicit Types (trace out : list event).

(** *** Ordered insertion *)

(** C2: on a registry array sorted by key, with a slot free for the new
    entry (the capacity bound I4), a new entry is put after every entry whose
    key is less than or equal to the new key and before every entry whose key
    is greater ([add_plane] on the control, the insertion step of
    [add_airport] on the mapper); the length grows by exactly one, the array
    is sorted again, and entries with the key of the new one stand before
    it. *)
Theorem ordered_insertion :
  (∀ g l plane,
     Control.holds g l → sorted id l →
     Control.numPlanes g < length (Control.planes g) →
     ∃ g' l1 l2,
       Control.add_plane plane g = Some g'
       ∧ l = l1 ++ l2
       ∧ Control.holds g' (l1 ++ plane :: l2)
       ∧ Control.numPlanes g' = S (Control.numPlanes g)
       ∧ Forall (λ x, (strcmp x plane ≤ 0)%Z) l1
       ∧ Forall (λ x, (strcmp plane x < 0)%Z) l2
       ∧ sorted id (l1 ++ plane :: l2))
  ∧ (∀ d l command a,
       Mapper.holds d l → sorted Mapper.name l →
       Mapper.numAirports d < length (Mapper.airports d) →
       Mapper.registration command = Some a →
       Mapper.name a ∉ Mapper.name <$> l →
       ∃ d' l1 l2,
         Mapper.add_airport command d = Some d'
         ∧ l = l1 ++ l2
         ∧ Mapper.holds d' (l1 ++ a :: l2)
         ∧ Mapper.numAirports d' = S (Mapper.numAirports d)
         ∧ Forall (λ x, (strcmp (Mapper.name x) (Mapper.name a) ≤ 0)%Z) l1
         ∧ Forall (λ x, (strcmp (Mapper.name a) (Mapper.name x) < 0)%Z) l2
         ∧ sorted Mapper.name (l1 ++ a :: l2)).
Proof.
  split.
  - intros g l plane Hrep Hs Hroom.
    destruct (insert_ordered_sorted id plane plane _ _ l Hrep Hs Hroom eq_refl)
      as (arr' & l1 & l2 & Hins & Hl & Hrep' & _ & H1 & H2 & Hs').
    exists {| Control.planes := arr';
              Control.numPlanes := S (Control.numPlanes g) |}, l1, l2.
    unfold Control.add_plane. rewrite Hins. done.
  - intros d l command a Hrep Hs Hroom Hreg Hnew.
    assert (Hfields : fields command ≠ []).
    { unfold Mapper.registration in Hreg. by destruct (fields command). }
    destruct (add_airport_room command d l Hrep Hroom Hfields)
      as (d' & Hadd & Hrep' & _).
    rewrite Hreg in Hrep'. unfold Mapper.insertIfAbsent in Hrep'.
    rewrite decide_False in Hrep' by done.
    destruct (place_split Mapper.name (Mapper.name a) a l Hs eq_refl)
      as (l1 & l2 & Hl & Hplace & H1 & H2 & Hs').
    rewrite Hplace in Hrep'.
    exists d', l1, l2.
    split; [done|]. split; [done|]. split; [done|]. split; [|done].
    destruct (add_airport_inv command d l d' Hrep Hadd)
      as [->|(_ & _ & _ & _ & Hnum & _)]; [|done].
    pose proof (represents_length _ _ _ Hrep) as Hlen.
    pose proof (represents_length _ _ _ Hrep') as Hlen'.
    rewrite Hl in Hlen. rewrite length_app in Hlen, Hlen'.
    cbn in Hlen'. lia.
Qed.

Lemma ordered_insertion_witness :
  Control.holds Control.two_visits ["AB123"; "CD456"]
  ∧ sorted id ["AB123"; "CD456"]
  ∧ ∃ g' l1 l2,
      Control.add_plane "CD456" Control.two_visits = Some g'
      ∧ ["AB123"; "CD456"] = l1 ++ l2
      ∧ Control.holds g' (l1 ++ "CD456" :: l2)
      ∧ Control.numPlanes g' = S (Control.numPlanes Control.two_visits)
      ∧ Forall (λ x, (strcmp x "CD456" ≤ 0)%Z) l1
      ∧ Forall (λ x, (strcmp "CD456" x < 0)%Z) l2
      ∧ sorted id (l1 ++ "CD456" :: l2).
Proof.
  assert (Hrep : Control.holds Control.two_visits ["AB123"; "CD456"])
    by (split; [reflexivity|cbn; lia]).
  assert (Hs : sorted id ["AB123"; "CD456"])
    by (repeat constructor; by vm_compute).
  split; [exact Hrep|]. split; [exact Hs|].
  apply (proj1 ordered_insertion Control.two_visits ["AB123"; "CD456"]
           "CD456" Hrep Hs).
  cbn. lia.
Defined.

(** *** What an operation leaves alone *)

(** C10: a lookup, an enumeration and the [log] command leave the registry
    as it is; any step of a handler either leaves the registry as it is or
    inserts one new entry, every entry stored before staying in place with
    its key and value, in the same order, and the size growing by exactly
    one; no step removes or changes an entry. *)
Theorem registry_frame :
  (∀ d l message d' out,
     Mapper.holds d l → Mapper.handle_input message d = Some (d', out) →
     (char0 message ≠ "!"%char → d' = d)
     ∧ (d' = d
        ∨ ∃ a l1 l2,
            l = l1 ++ l2 ∧ Mapper.holds d' (l1 ++ a :: l2)
            ∧ Mapper.numAirports d' = S (Mapper.numAirports d)))
  ∧ (∀ info g l chunk g' out fl,
       Control.holds g l →
       Control.client_step info chunk g = Some (g', out, fl) →
       (chunk = "log" +:+ newline → g' = g)
       ∧ (g' = g
          ∨ ∃ plane l1 l2,
              l = l1 ++ l2 ∧ Control.holds g' (l1 ++ plane :: l2)
              ∧ Control.numPlanes g' = S (Control.numPlanes g))).
Proof.
  split.
  - intros d l message d' out Hrep Hstep.
    destruct (handle_input_state _ _ _ _ Hstep) as [->|(Hbang & _ & Hadd)].
    { split; [done|by left]. }
    split; [done|].
    destruct (add_airport_inv _ _ _ _ Hrep Hadd)
      as [->|(a & _ & _ & Hrep' & Hnum & _)]; [by left|].
    right. exists a, (take (scan Mapper.name (Mapper.name a) l) l),
             (drop (scan Mapper.name (Mapper.name a) l) l).
    by rewrite take_drop.
  - intros info g l chunk g' out fl Hrep Hstep.
    destruct (client_step_inv _ _ _ _ _ _ _ Hrep Hstep)
      as [(_ & -> & _)|[(_ & -> & _)|(plane & -> & Hne & _ & _ & Hrep' & Hnum & _)]].
    { split; [done|by left]. }
    { split; [done|by left]. }
    split.
    + intros Heq. apply (f_equal cut_last) in Heq.
      rewrite !cut_last_newline in Heq. congruence.
    + right. exists plane, (take (scan id plane l) l), (drop (scan id plane l) l).
      by rewrite take_drop.
Qed.

Lemma registry_frame_witness :
  Mapper.holds Mapper.with_bne [Mapper.bne]
  ∧ Mapper.handle_input "?BNE" Mapper.with_bne
    = Some (Mapper.with_bne, [Fprintf ("8001" +:+ newline); Fflush])
  ∧ (char0 "?BNE" ≠ "!"%char → Mapper.with_bne = Mapper.with_bne).
Proof.
  assert (Hrep : Mapper.holds Mapper.with_bne [Mapper.bne])
    by (split; [reflexivity|cbn; lia]).
  assert (Hstep : Mapper.handle_input "?BNE" Mapper.with_bne
                  = Some (Mapper.with_bne, [Fprintf ("8001" +:+ newline); Fflush]))
    by (by vm_compute).
  split; [exact Hrep|]. split; [exact Hstep|].
  exact (proj1 (proj1 registry_frame _ _ _ _ _ Hrep Hstep)).
Defined.

(** *** Malformed lines *)

(** C4, as the handlers have it: the control handler ignores every line that
    breaks the framing rules (no response, no change of the log, the
    connection stays open); the mapper handler does not check the framing:
    it cuts the last character off whatever it read and ignores what is left
    when that is [?] or [!] alone or no command. *)
Theorem malformed_line_ignored :
  (∀ info chunk g,
     well_framed chunk = false →
     Control.client_step info chunk g = Some (g, [], Continue))
  ∧ (∀ chunk message d,
       cut_last chunk = Some message →
       message = "?" ∨ message = "!"
       ∨ (char0 message ≠ "?"%char ∧ char0 message ≠ "!"%char
          ∧ message ≠ "@") →
       ∃ out, Mapper.client_step chunk d = Some (d, out) ∧ response out = []).
Proof.
  split; [apply client_step_invalid|].
  intros chunk message d Hcut [->|[->|(Hq & Hb & Hat)]].
  - exists []. unfold Mapper.client_step. by rewrite Hcut.
  - exists []. unfold Mapper.client_step. by rewrite Hcut.
  - exists [TakeLock; ReleaseLock]. split; [|done].
    by apply (client_step_other d chunk message).
Qed.

Lemma malformed_line_ignored_witness :
  well_framed "a:b" = false
  ∧ Control.client_step "info" "a:b" Control.initial
    = Some (Control.initial, [], Continue).
Proof.
  split; [reflexivity|].
  apply (proj1 malformed_line_ignored "info" "a:b" Control.initial).
  reflexivity.
Defined.

(** C4 as stated fails on the mapper: a line with a carriage return and a
    line without terminator are answered, and a registration without
    terminator changes the directory. *)
Lemma malformed_line_counterexample :
  (well_framed ("?XYZ" +:+ String CR newline) = false
   ∧ Mapper.client_step ("?XYZ" +:+ String CR newline) Mapper.initial
     = Some (Mapper.initial,
             [TakeLock; Fprintf (";" +:+ newline); Fflush; ReleaseLock]))
  ∧ (well_framed "?BNEx" = false
     ∧ Mapper.client_step "?BNEx" Mapper.with_bne
       = Some (Mapper.with_bne,
               [TakeLock; Fprintf ("8001" +:+ newline); Fflush; ReleaseLock]))
  ∧ (well_framed "!BNE:80012" = false
     ∧ Mapper.client_step "!BNE:80012" Mapper.initial
       = Some (Mapper.with_bne, [TakeLock; ReleaseLock])).
Proof. repeat split; by vm_compute. Qed.

(** *** The lock and the connection *)









(** *** The accept loop *)

Lemma accept_loop_spec iterations accepts :
  Mapper.accept_loop iterations accepts
  = filter (λ fd, (0 ≤ fd)%Z) (take iterations accepts).
Proof.
  revert accepts. induction iterations as [|n IH]; intros [|fd rest]; try done.
  cbn [Mapper.accept_loop take]. rewrite filter_cons, IH.
  destruct (Z.leb_spec 0 fd); [by rewrite decide_True|].
  by rewrite decide_False by lia.
Qed.

Lemma accept_clients_spec accepts maxPlanes :
  Control.accept_clients accepts maxPlanes
  = filter (λ fd, (0 ≤ fd)%Z) (take maxPlanes accepts).
Proof.
  revert accepts. induction maxPlanes as [|n IH]; intros [|fd rest]; try done.
  cbn [Control.accept_clients take]. rewrite filter_cons, IH.
  destruct (Z.leb_spec 0 fd); [by rewrite decide_True|].
  by rewrite decide_False by lia.
Qed.

(** C9: the accept loop of the mapper and of the control hands at most 1000
    connections to handlers over the life of the process, and nothing else
    limits it: every successful [accept] among the first 1000 calls gets its
    handler, whatever became of the handlers before it. *)
Theorem accept_bound (accepts : list Z) :
  length (Mapper.main_loop accepts) ≤ 1000
  ∧ Mapper.main_loop accepts
    = filter (λ fd, (0 ≤ fd)%Z) (take 1000 accepts)
  ∧ length (Control.accept_clients accepts Control.maxPlanes) ≤ 1000
  ∧ Control.accept_clients accepts Control.maxPlanes
    = filter (λ fd, (0 ≤ fd)%Z) (take 1000 accepts).
Proof.
  unfold Mapper.main_loop.
  rewrite accept_loop_spec, accept_clients_spec.
  change Mapper.maxAirports with 1000. change Control.maxPlanes with 1000.
  assert (Hlen : length (filter (λ fd, (0 ≤ fd)%Z) (take 1000 accepts)) ≤ 1000).
  { etrans; [apply length_filter|]. rewrite length_take. lia. }
  done.
Qed.

End Servers.

(** ** Strings without colons, and lines *)

Section MoreStrings.

Lemma append_assoc (s1 s2 s3 : string) :
  (s1 +:+ s2) +:+ s3 = s1 +:+ (s2 +:+ s3).
Proof.
  induction s1 as [|c r IH]; [done|].
  change (String c ((r +:+ s2) +:+ s3) = String c (r +:+ (s2 +:+ s3))).
  by rewrite IH.
Qed.

Lemma append_empty_r (s : string) : s +:+ EmptyString = s.
Proof.
  induction s as [|c r IH]; [done|].
  change (String c (r +:+ EmptyString) = String c r). by rewrite IH.
Qed.

Lemma all_chars_app p s1 s2 :
  all_chars p (s1 +:+ s2) = all_chars p s1 && all_chars p s2.
Proof.
  induction s1 as [|c r IH]; [done|].
  change (all_chars p (String c (r +:+ s2))
          = p c && all_chars p r && all_chars p s2).
  cbn [all_chars]. by rewrite IH, andb_assoc.
Qed.

Lemma all_chars_impl (p q : ascii → bool) s :
  (∀ c, p c = true → q c = true) → all_chars p s = true → all_chars q s = true.
Proof.
  intros Hpq. induction s as [|c r IH]; [done|]. cbn.
  rewrite !andb_true_iff. intros [Hc Hr]. split; [by apply Hpq|by apply IH].
Qed.

Lemma split_colon_free s : colon_free s = true → split_colon s = [s].
Proof.
  induction s as [|c r IH]; [done|].
  unfold colon_free. cbn [all_chars]. rewrite andb_true_iff, negb_true_iff.
  intros [Hc Hr]. rewrite split_colon_cons, Hc. by rewrite (IH Hr).
Qed.

Lemma split_colon_app s1 s2 :
  colon_free s1 = true →
  split_colon (s1 +:+ String COLON s2) = s1 :: split_colon s2.
Proof.
  induction s1 as [|c r IH]; [done|].
  unfold colon_free. cbn [all_chars]. rewrite andb_true_iff, negb_true_iff.
  intros [Hc Hr].
  change (String c r +:+ String COLON s2)
    with (String c (r +:+ String COLON s2)).
  rewrite split_colon_cons, Hc. by rewrite (IH Hr).
Qed.

Lemma split_colon_elem_free s field :
  field ∈ split_colon s → colon_free field = true.
Proof.
  revert field. induction s as [|c r IH]; intros field.
  - intros Hin. apply list_elem_of_singleton in Hin. by subst.
  - rewrite split_colon_cons.
    destruct (Ascii.eqb c COLON) eqn:Hc.
    + intros [->|Hin]%elem_of_cons; [done|by apply IH].
    + destruct (split_colon r) as [|first others] eqn:Hsplit.
      * intros Hin. apply list_elem_of_singleton in Hin. subst.
        unfold colon_free. cbn. by rewrite Hc.
      * intros [->|Hin]%elem_of_cons.
        -- unfold colon_free. cbn [all_chars]. rewrite Hc. cbn [negb andb].
           apply IH, list_elem_of_here.
        -- by apply IH, list_elem_of_further.
Qed.

Lemma fields_elem_free s field : field ∈ fields s → colon_free field = true.
Proof.
  unfold fields. rewrite list_elem_of_filter. intros [_ Hin].
  by apply (split_colon_elem_free s).
Qed.

Lemma fields_pair id port :
  id ≠ EmptyString → colon_free id = true →
  port ≠ EmptyString → colon_free port = true →
  fields (id +:+ ":" +:+ port) = [id; port].
Proof.
  intros Hid Hidf Hport Hportf. unfold fields.
  change (id +:+ ":" +:+ port) with (id +:+ String COLON port).
  rewrite (split_colon_app id port Hidf), (split_colon_free port Hportf).
  by rewrite filter_cons_True, filter_cons_True by done.
Qed.

Lemma fields_colons s :
  all_chars (λ c, Ascii.eqb c COLON) s = true → fields s = [].
Proof.
  induction s as [|c r IH]; [done|]. cbn [all_chars].
  rewrite andb_true_iff. intros [Hc Hr].
  apply Ascii.eqb_eq in Hc. subst c. by rewrite fields_colon, IH.
Qed.

Lemma is_integer_colon_free s :
  Mapper.is_integer s = true → colon_free s = true.
Proof.
  induction s as [|c r IH]; [done|]. cbn [Mapper.is_integer].
  destruct (isdigit c) eqn:Hd; [|done]. intros Hr.
  unfold colon_free. cbn [all_chars]. rewrite andb_true_iff. split.
  - apply negb_true_iff.
    destruct (Ascii.eqb_spec c COLON) as [->|]; [done|done].
  - by apply IH.
Qed.

Lemma terminated_payload_app s : terminated_payload (s +:+ newline) = clean s.
Proof.
  induction s as [|c r IH]; [done|].
  change (String c r +:+ newline) with (String c (r +:+ newline)).
  destruct (r +:+ newline) as [|c' t] eqn:Happ; [by destruct r|].
  change (terminated_payload (String c (String c' t)))
    with (negb (forbidden c) && terminated_payload (String c' t)).
  by rewrite IH.
Qed.

Lemma well_framed_line s :
  well_framed (s +:+ newline)
  = negb (String.eqb s EmptyString) && clean s.
Proof.
  unfold well_framed. rewrite terminated_payload_app. f_equal. f_equal.
  destruct s as [|c r]; [done|].
  change (String c r +:+ newline) with (String c (r +:+ newline)).
  unfold newline at 2. cbn [String.eqb].
  destruct (Ascii.eqb c LF); [|done]. by destruct r.
Qed.


Lemma framed_plane_id plane :
  well_framed (plane +:+ newline) = true → plane ≠ "log" → plane_id plane.
Proof.
  rewrite well_framed_line, andb_true_iff, negb_true_iff.
  intros [Hne Hclean] Hlog. split; [|done].
  intros ->. done.
Qed.

End MoreStrings.

(** ** More on the mapper *)

Section MoreMapper.

Import Mapper.

Implicit Types (d : Directory) (l : list Airport) (id port payload : string).

Lemma find_skip (P : Airport → Prop) `{∀ x, Decision (P x)} a l1 l2 :
  ¬ P a →
  snd <$> list_find P (l1 ++ a :: l2) = snd <$> list_find P (l1 ++ l2).
Proof.
  intros Ha. induction l1 as [|x l1 IH]; cbn.
  - rewrite decide_False by done. by destruct (list_find P l2) as [[? ?]|].
  - destruct (decide (P x)); [done|].
    destruct (list_find P (l1 ++ a :: l2)) as [[? ?]|],
             (list_find P (l1 ++ l2)) as [[? ?]|]; cbn in *; congruence.
Qed.

Lemma lookup_text_perm id a l :
  name a ≠ id →
  match list_find (λ x, name x = id) (place name (name a) a l) with
  | Some (_, x) => portNumber x
  | None => ";"
  end
  = match list_find (λ x, name x = id) l with
    | Some (_, x) => portNumber x
    | None => ";"
    end.
Proof.
  intros Hne.
  pose proof (find_skip (λ x, name x = id) a
                (take (scan name (name a) l) l)
                (drop (scan name (name a) l) l) Hne) as Hskip.
  rewrite take_drop in Hskip. fold (place name (name a) a l) in Hskip.
  destruct (list_find _ (place name (name a) a l)) as [[? ?]|],
           (list_find _ l) as [[? ?]|]; cbn in Hskip; congruence.
Qed.

Lemma registration_pair id port :
  id ≠ EmptyString → colon_free id = true →
  port ≠ EmptyString → is_integer port = true →
  registration (id +:+ ":" +:+ port)
  = Some {| name := id; portNumber := port |}.
Proof.
  intros Hid Hidf Hport Hdigits. unfold registration.
  rewrite fields_pair by (done || by apply is_integer_colon_free).
  by rewrite Hdigits.
Qed.

Lemma registration_proper payload a :
  registration payload = Some a → proper_airport a.
Proof.
  unfold registration.
  destruct (fields payload) as [|id [|port rest]] eqn:Hfields; [done|done|].
  destruct (is_integer port) eqn:Hdigits; [|done]. intros [= <-].
  assert (Hid : id ∈ fields payload)
    by (rewrite Hfields; apply list_elem_of_here).
  assert (Hport : port ∈ fields payload)
    by (rewrite Hfields; apply list_elem_of_further, list_elem_of_here).
  split; [by apply (fields_not_empty payload)|].
  split; [by apply (fields_elem_free payload)|].
  split; [by apply (fields_not_empty payload)|done].
Qed.

Lemma airport_line_payload a :
  airport_line a = (name a +:+ ":" +:+ portNumber a) +:+ newline.
Proof. unfold airport_line. by rewrite !append_assoc. Qed.

Lemma client_handler_reachable input :
  ∀ d d' trace,
    reachable d → client_handler input d = Some (d', trace) → reachable d'.
Proof.
  induction input as [|chunk rest IH]; intros d d' trace Hreach.
  - by intros [= <- _].
  - cbn [client_handler].
    destruct (client_step chunk d) as [[d1 ev1]|] eqn:Hstep; [|done].
    cbn [mbind option_bind].
    destruct (client_handler rest d1) as [[d2 ev2]|] eqn:Hrest; [|done].
    cbn. intros [= <- _]. apply (IH d1 d2 ev2); [|done].
    revert Hstep. unfold client_step.
    destruct (cut_last chunk) as [message|]; [|done]. cbn [mbind option_bind].
    destruct (_ && _); [by intros [= <- _]|].
    destruct (handle_input message d) as [[d3 out]|] eqn:Hin; [|done].
    cbn. intros [= <- _]. by apply (reachable_step d message d3 out).
Qed.

(** X1: [get_airport_index] returns -1 exactly when no entry in use has the
    name, and otherwise the least index of an entry with the name, which lies
    within the entries in use. *)
Theorem get_airport_index_result d l airportName :
  holds d l →
  ∃ index,
    get_airport_index (Some airportName) (airports d) (numAirports d)
    = Some index
    ∧ ((index = (-1)%Z ∧ ∀ a, a ∈ l → name a ≠ airportName)
       ∨ ((0 ≤ index < Z.of_nat (numAirports d))%Z
          ∧ ∃ a, l !! Z.to_nat index = Some a ∧ name a = airportName
                 ∧ ∀ j b, l !! j = Some b → j < Z.to_nat index →
                          name b ≠ airportName)).
Proof.
  intros Hrep. rewrite (get_airport_index_spec airportName d l Hrep).
  destruct (list_find _ l) as [[i a]|] eqn:Hfind.
  - apply list_find_Some in Hfind as (Hi & Ha & Hfirst).
    exists (Z.of_nat i). split; [done|]. right.
    pose proof (lookup_lt_Some _ _ _ Hi) as Hlt.
    rewrite (represents_length _ _ _ Hrep) in Hlt.
    split; [lia|]. rewrite Nat2Z.id. exists a. split; [done|]. split; [done|].
    intros j b Hj Hjlt. by apply (Hfirst j b).
  - exists (-1)%Z. split; [done|]. left. split; [done|].
    apply list_find_None in Hfind. by apply Forall_forall.
Qed.

Lemma get_airport_index_result_witness :
  holds with_bne [bne]
  ∧ ∃ index,
      get_airport_index (Some "BNE") (airports with_bne) (numAirports with_bne)
      = Some index
      ∧ ((index = (-1)%Z ∧ ∀ a, a ∈ [bne] → name a ≠ "BNE")
         ∨ ((0 ≤ index < Z.of_nat (numAirports with_bne))%Z
            ∧ ∃ a, [bne] !! Z.to_nat index = Some a ∧ name a = "BNE"
                   ∧ ∀ j b, [bne] !! j = Some b → j < Z.to_nat index →
                            name b ≠ "BNE")).
Proof.
  assert (Hrep : holds with_bne [bne]) by (split; [reflexivity|cbn; lia]).
  split; [exact Hrep|].
  exact (get_airport_index_result with_bne [bne] "BNE" Hrep).
Defined.

(** X2: a registration whose payload is made of colons only gives
    [add_airport] a null id: it is dropped while the directory is empty, and
    once an airport is registered the null pointer reaches [strcmp]. *)
Theorem colon_only_registration d l payload :
  holds d l → payload ≠ EmptyString →
  all_chars (λ c, Ascii.eqb c COLON) payload = true →
  client_step (String "!" payload +:+ newline) d
  = match l with
    | [] => Some (d, [TakeLock; ReleaseLock])
    | _ :: _ => None
    end.
Proof.
  intros Hrep Hne Hcolons.
  rewrite client_step_register, (add_airport_fields payload d l Hrep),
    (fields_colons payload Hcolons) by done.
  by destruct l.
Qed.

Lemma colon_only_registration_witness :
  holds with_bne [bne]
  ∧ client_step ("!::" +:+ newline) with_bne = None.
Proof.
  assert (Hrep : holds with_bne [bne]) by (split; [reflexivity|cbn; lia]).
  split; [exact Hrep|].
  apply (colon_only_registration with_bne [bne] "::" Hrep);
    [discriminate|reflexivity].
Defined.

(** X3: every entry of a reachable directory has an id that is not empty
    and has no colon and a port that is a string of digits and not empty;
    so each line of an enumeration, without its newline, is a registration
    payload for exactly the entry it lists. *)
Theorem directory_entries_proper d l :
  reachable d → holds d l →
  Forall (λ a, proper_airport a
               ∧ ∃ payload, cut_last (airport_line a) = Some payload
                            ∧ registration payload = Some a) l.
Proof.
  intros Hreach. revert l.
  assert (Hline : ∀ a, proper_airport a →
            ∃ payload, cut_last (airport_line a) = Some payload
                       ∧ registration payload = Some a).
  { intros [id port] (Hid & Hidf & Hport & Hdigits). cbn in *.
    exists (id +:+ ":" +:+ port).
    rewrite airport_line_payload, cut_last_newline. split; [done|].
    by apply registration_pair. }
  induction Hreach as [|d message d' out Hd IH Hstep]; intros l Hrep.
  - assert (l = []) as ->; [|constructor].
    apply (represents_unique _ _ _ _ Hrep). split; [done|]. cbn. lia.
  - destruct (reachable_invariant d) as (l0 & Hrep0 & _); [done|].
    pose proof (IH l0 Hrep0) as Hall.
    destruct (handle_input_state _ _ _ _ Hstep) as [->|(_ & _ & Hadd)].
    { by rewrite (represents_unique _ _ _ _ Hrep Hrep0). }
    destruct (add_airport_inv _ _ _ _ Hrep0 Hadd)
      as [->|(a & Hreg & _ & Hrep' & _)].
    { by rewrite (represents_unique _ _ _ _ Hrep Hrep0). }
    rewrite (represents_unique _ _ _ _ Hrep Hrep'), place_perm.
    constructor; [|done].
    pose proof (registration_proper _ _ Hreg) as Hproper.
    split; [done|by apply Hline].
Qed.

Lemma directory_entries_proper_witness :
  reachable with_bne ∧ holds with_bne [bne]
  ∧ Forall (λ a, proper_airport a
                 ∧ ∃ payload, cut_last (airport_line a) = Some payload
                              ∧ registration payload = Some a) [bne].
Proof.
  assert (Hreach : reachable with_bne).
  { apply (reachable_step initial "!BNE:8001" with_bne []);
      [apply reachable_initial | by vm_compute]. }
  assert (Hrep : holds with_bne [bne]) by (split; [reflexivity|cbn; lia]).
  split; [exact Hreach|]. split; [exact Hrep|].
  exact (directory_entries_proper with_bne [bne] Hreach Hrep).
Defined.

(** X4: after a registration of an id that was absent, with a port of
    digits, a lookup of that id returns that port, and the lookup of any
    other id returns what it returned before. *)
Theorem register_then_lookup d l id port :
  holds d l → numAirports d < length (airports d) →
  id ≠ EmptyString → colon_free id = true →
  port ≠ EmptyString → is_integer port = true →
  id ∉ name <$> l →
  ∃ d',
    client_step (String "!" (id +:+ ":" +:+ port) +:+ newline) d
    = Some (d', [TakeLock; ReleaseLock])
    ∧ client_step (String "?" id +:+ newline) d'
      = Some (d', [TakeLock; Fprintf (port +:+ newline); Fflush; ReleaseLock])
    ∧ ∀ other,
        other ≠ EmptyString → other ≠ id →
        ∃ out,
          client_step (String "?" other +:+ newline) d = Some (d, out)
          ∧ client_step (String "?" other +:+ newline) d' = Some (d', out).
Proof.
  intros Hrep Hroom Hid Hidf Hport Hdigits Hnew.
  set (a := {| name := id; portNumber := port |}).
  assert (Hreg : registration (id +:+ ":" +:+ port) = Some a)
    by (by apply registration_pair).
  assert (Hfields : fields (id +:+ ":" +:+ port) ≠ []).
  { unfold registration in Hreg. by destruct (fields _). }
  destruct (add_airport_room _ d l Hrep Hroom Hfields)
    as (d' & Hadd & Hrep' & _).
  rewrite Hreg in Hrep'. unfold insertIfAbsent in Hrep'.
  rewrite decide_False in Hrep' by done.
  exists d'. split.
  { rewrite client_step_register, Hadd; [done|]. by destruct id. }
  split.
  - rewrite client_step_lookup, (handle_input_lookup id d' _ Hrep') by done.
    destruct (list_find _ _) as [[i x]|] eqn:Hfind.
    + apply list_find_Some in Hfind as (Hi & Hx & _).
      apply list_elem_of_lookup_2 in Hi.
      rewrite place_perm in Hi. apply elem_of_cons in Hi as [->|Hin]; [done|].
      exfalso. apply Hnew, list_elem_of_fmap. by exists x.
    + exfalso. apply list_find_None in Hfind.
      rewrite place_perm in Hfind. by apply Forall_cons in Hfind as [Ha _].
  - intros other Hother Hne.
    rewrite !client_step_lookup by done.
    rewrite (handle_input_lookup other d l Hrep),
      (handle_input_lookup other d' _ Hrep').
    rewrite (lookup_text_perm other a l) by (by intros Heq; apply Hne).
    by eexists.
Qed.

Lemma register_then_lookup_witness :
  holds initial [] ∧ numAirports initial < length (airports initial)
  ∧ ∃ d',
      client_step (String "!" ("BNE" +:+ ":" +:+ "8001") +:+ newline) initial
      = Some (d', [TakeLock; ReleaseLock])
      ∧ client_step (String "?" "BNE" +:+ newline) d'
        = Some (d', [TakeLock; Fprintf ("8001" +:+ newline); Fflush;
                     ReleaseLock])
      ∧ ∀ other,
          other ≠ EmptyString → other ≠ "BNE" →
          ∃ out,
            client_step (String "?" other +:+ newline) initial
            = Some (initial, out)
            ∧ client_step (String "?" other +:+ newline) d' = Some (d', out).
Proof.
  assert (Hrep : holds initial []) by (split; [reflexivity|cbn; lia]).
  assert (Hroom : numAirports initial < length (airports initial))
    by (cbn; lia).
  split; [exact Hrep|]. split; [exact Hroom|].
  apply (register_then_lookup initial [] "BNE" "8001" Hrep Hroom);
    [discriminate | reflexivity | discriminate | reflexivity |].
  intros Hin. by apply elem_of_nil in Hin.
Defined.

(** X5: on a directory with every slot in use the registration of a new id
    with a port of digits stores past the end of the array (undefined),
    while a registration of an id that is present or without such a port is
    dropped as ever, and lookups, enumerations and other lines are served as
    ever, leaving the directory as it is. *)
Theorem full_directory_behaviour d l :
  holds d l → numAirports d = length (airports d) →
  (∀ payload a,
     registration payload = Some a → name a ∉ name <$> l →
     client_step (String "!" payload +:+ newline) d = None)
  ∧ (∀ payload id rest,
       fields payload = id :: rest →
       id ∈ name <$> l ∨ registration payload = None →
       client_step (String "!" payload +:+ newline) d
       = Some (d, [TakeLock; ReleaseLock]))
  ∧ (∀ chunk message,
       cut_last chunk = Some message → char0 message ≠ "!"%char →
       ∃ out, client_step chunk d = Some (d, out)).
Proof.
  intros Hrep Hfull. split; [|split].
  - intros payload a Hreg Hnew.
    assert (Hne : payload ≠ EmptyString) by (by intros ->).
    rewrite client_step_register, (add_airport_fields payload d l Hrep) by done.
    unfold registration in Hreg.
    destruct (fields payload) as [|id [|port rest]]; [done|done|].
    destruct (is_integer port); [|done]. injection Hreg as <-.
    rewrite decide_False by done.
    by rewrite (insert_ordered_full name id _ _ _ l Hrep Hfull).
  - intros payload id rest Hfields Hcase.
    assert (Hne : payload ≠ EmptyString) by (by intros ->).
    rewrite client_step_register, (add_airport_fields payload d l Hrep),
      Hfields by done.
    case_decide as Hin; [done|].
    destruct Hcase as [Hin'|Hnone]; [done|].
    unfold registration in Hnone. rewrite Hfields in Hnone.
    destruct rest as [|port rest']; [done|].
    by destruct (is_integer port).
  - intros chunk message Hcut Hbang.
    destruct (decide (message = "?")) as [->|Hq].
    { exists []. unfold client_step. by rewrite Hcut. }
    rewrite (client_step_dispatch chunk message d Hcut)
      by (done || by intros ->).
    destruct (Ascii.eqb_spec (char0 message) "?") as [Hquery|Hnq].
    + destruct message as [|c id]; [done|]. cbn in Hquery. subst c.
      rewrite (handle_input_lookup id d l Hrep). by eexists.
    + destruct (decide (message = "@")) as [->|Hat].
      * rewrite (handle_input_enumerate d l Hrep). by eexists.
      * rewrite handle_input_other by done. by eexists.
Qed.

Lemma full_directory_reachable : reachable full_directory.
Proof.
  apply (client_handler_reachable
           ((λ i, "!" +:+ airport_code i +:+ ":1" +:+ newline) <$> seq 0 1000)
           initial full_directory
           (snd (default (initial, [])
                   (client_handler
                      ((λ i, "!" +:+ airport_code i +:+ ":1" +:+ newline)
                         <$> seq 0 1000) initial))));
    [apply reachable_initial|by vm_compute].
Qed.

Lemma full_directory_behaviour_witness :
  reachable full_directory
  ∧ holds full_directory (coded_airport <$> seq 0 1000)
  ∧ numAirports full_directory = length (airports full_directory)
  ∧ client_step ("!ZZZ:1" +:+ newline) full_directory = None
  ∧ client_step ("!aaa:2" +:+ newline) full_directory
    = Some (full_directory, [TakeLock; ReleaseLock]).
Proof.
  assert (Hrep : holds full_directory (coded_airport <$> seq 0 1000))
    by (split; [by vm_compute|vm_compute; lia]).
  assert (Hfull : numAirports full_directory = length (airports full_directory))
    by (by vm_compute).
  split; [exact full_directory_reachable|].
  split; [exact Hrep|]. split; [exact Hfull|]. split.
  - apply (proj1 (full_directory_behaviour _ _ Hrep Hfull) "ZZZ:1"
             {| name := "ZZZ"; portNumber := "1" |}); [reflexivity|].
    apply (bool_decide_unpack _). by vm_compute.
  - apply (proj1 (proj2 (full_directory_behaviour _ _ Hrep Hfull)) "aaa:2"
             "aaa" ["2"]); [reflexivity|].
    left. apply (bool_decide_unpack _). by vm_compute.
Defined.

End MoreMapper.

(** ** More on the control *)

Section MoreControl.

Import Control.

Implicit Types (g : Log) (l : list string) (info chunk plane : string).



(** X6: every entry of a reachable log is an id that is not empty, has no
    newline, carriage return or colon, and is not [log]: a plane with the id
    [log] is never logged. *)
Theorem log_entries_plane_ids info g l :
  reachable info g → holds g l → Forall plane_id l.
Proof.
  intros Hreach. revert l.
  induction Hreach as [|g chunk g' out fl Hg IH Hstep]; intros l Hrep.
  - assert (l = []) as ->; [|constructor].
    apply (represents_unique _ _ _ _ Hrep). split; [done|]. cbn. lia.
  - destruct (reachable_sorted info g Hg) as (l0 & Hrep0 & _).
    pose proof (IH l0 Hrep0) as Hall.
    destruct (client_step_inv _ _ _ _ _ _ _ Hrep0 Hstep)
      as [(_ & -> & _)|[(_ & -> & _)
         |(plane & -> & Hne & Hframed & _ & Hrep' & _)]].
    { by rewrite (represents_unique _ _ _ _ Hrep Hrep0). }
    { by rewrite (represents_unique _ _ _ _ Hrep Hrep0). }
    rewrite (represents_unique _ _ _ _ Hrep Hrep'), place_perm.
    constructor; [|done]. by apply framed_plane_id.
Qed.

Lemma log_entries_plane_ids_witness :
  reachable "info" two_visits ∧ holds two_visits ["AB123"; "CD456"]
  ∧ Forall plane_id ["AB123"; "CD456"].
Proof.
  assert (Hreach : reachable "info" two_visits).
  { apply (reachable_step "info"
             {| planes := Some "CD456" :: replicate 999 None; numPlanes := 1 |}
             ("AB123" +:+ newline) two_visits
             [TakeLock; Fprintf ("info" +:+ newline); Fflush; ReleaseLock]
             Continue); [|by vm_compute].
    apply (reachable_step "info" initial ("CD456" +:+ newline) _
             [TakeLock; Fprintf ("info" +:+ newline); Fflush; ReleaseLock]
             Continue); [apply reachable_initial|by vm_compute]. }
  assert (Hrep : holds two_visits ["AB123"; "CD456"])
    by (split; [reflexivity|cbn; lia]).
  split; [exact Hreach|]. split; [exact Hrep|].
  exact (log_entries_plane_ids "info" two_visits _ Hreach Hrep).
Defined.







Lemma lock_after_writes held out trace :
  Forall (λ e, is_write e = true) out →
  lock_after held (out ++ trace) = lock_after held trace.
Proof.
  induction 1 as [|e out He _ IH]; [done|].
  destruct e; try done; exact IH.
Qed.

Lemma control_step_lock info chunk g g' out fl :
  client_step info chunk g = Some (g', out, fl) →
  match fl with
  | Continue =>
      chunk ≠ "log" +:+ newline
      ∧ ∀ trace, lock_after false (out ++ trace) = lock_after false trace
  | Break =>
      chunk = "log" +:+ newline
      ∧ lock_after false (out ++ [Fclose; Fclose]) = true
  end.
Proof.
  intros Hstep.
  destruct fl.
  - split.
    + intros ->. revert Hstep. unfold client_step.
      rewrite verify_message_log, cut_last_newline.
      cbn [negb mbind option_bind]. rewrite strcmp_refl. cbn [Z.eqb].
      by destruct (print_entries _ _ _ _).
    + revert Hstep. unfold client_step.
      destruct (negb _); [by intros [= _ <-]|].
      destruct (cut_last chunk) as [plane|]; [|done]. cbn [mbind option_bind].
      destruct (strcmp "log" plane =? 0)%Z.
      { by destruct (print_entries _ _ _ _). }
      destruct (add_plane plane g); [|done]. cbn. by intros [= _ <-].
  - split; [by apply (client_step_break info chunk g g' out)|].
    revert Hstep. unfold client_step.
    destruct (negb _); [done|].
    destruct (cut_last chunk) as [plane|]; [|done]. cbn [mbind option_bind].
    destruct (strcmp "log" plane =? 0)%Z.
    2:{ by destruct (add_plane plane g). }
    destruct (print_entries _ _ _ _) as [texts|]; [|done]. cbn.
    intros [= _ <-]. cbn. rewrite <- app_assoc.
    rewrite lock_after_writes; [done|].
    apply Forall_fmap, Forall_forall. done.
Qed.

(** X9: a control handler that reads the line [log] ends, its connection
    closed, while it still holds the shared lock; a handler that never reads
    [log] ends with the lock released. *)
Theorem lock_kept_after_log info input :
  ∀ g g' trace,
    client_handler info input g = Some (g', trace) →
    (∃ before, trace = before ++ [Fclose; Fclose])
    ∧ lock_after false trace = bool_decide ("log" +:+ newline ∈ input).
Proof.
  induction input as [|chunk rest IH]; intros g g' trace.
  - intros [= _ <-]. split; [by exists [Fgets None]|done].
  - cbn [client_handler].
    destruct (client_step info chunk g) as [[[g1 ev1] fl]|] eqn:Hstep; [|done].
    cbn [mbind option_bind].
    pose proof (control_step_lock _ _ _ _ _ _ Hstep) as Hlock.
    destruct fl.
    + destruct Hlock as [Hne Hlock].
      destruct (client_handler info rest g1) as [[g2 ev2]|] eqn:Hrest; [|done].
      cbn. intros [= _ <-].
      destruct (IH g1 g2 ev2 Hrest) as [[before ->] Hafter].
      split.
      * exists (Fgets (Some chunk) :: ev1 ++ before). cbn.
        by rewrite <- app_assoc.
      * cbn. rewrite Hlock, Hafter.
        apply bool_decide_ext. rewrite elem_of_cons.
        split; [by right|]. intros [Heq|Hin]; [congruence|done].
    + destruct Hlock as [-> Hlock]. intros [= _ <-].
      split; [by exists (Fgets (Some ("log" +:+ newline)) :: ev1)|].
      cbn. rewrite Hlock. symmetry. apply bool_decide_eq_true.
      apply list_elem_of_here.
Qed.

Lemma lock_kept_after_log_witness :
  client_handler "info" ["log" +:+ newline] initial
  = Some (initial, [Fgets (Some ("log" +:+ newline)); TakeLock;
                    Fprintf ("." +:+ newline); Fflush; Fclose; Fclose])
  ∧ lock_after false [Fgets (Some ("log" +:+ newline)); TakeLock;
                      Fprintf ("." +:+ newline); Fflush; Fclose; Fclose]
    = bool_decide ("log" +:+ newline ∈ ["log" +:+ newline]).
Proof.
  assert (Hrun : client_handler "info" ["log" +:+ newline] initial
                 = Some (initial, [Fgets (Some ("log" +:+ newline)); TakeLock;
                                   Fprintf ("." +:+ newline); Fflush;
                                   Fclose; Fclose]))
    by (by vm_compute).
  split; [exact Hrun|].
  exact (proj2 (lock_kept_after_log "info" _ _ _ _ Hrun)).
Defined.

End MoreControl.

(** ** Lines read by [fgets], numbers read by [atoi] *)

Section Lines.

Import CLine.

Lemma strlen_app s1 s2 : strlen (s1 +:+ s2) = strlen s1 + strlen s2.
Proof.
  induction s1 as [|c r IH]; [done|].
  change (S (strlen (r +:+ s2)) = S (strlen r + strlen s2)). by rewrite IH.
Qed.

Lemma take_line_whole room s :
  line_free s = true → strlen s < room →
  take_line room (s +:+ newline) = (s +:+ newline, EmptyString).
Proof.
  revert room. induction s as [|c r IH]; intros room Hfree Hlen.
  - destruct room; [cbn in Hlen; lia|done].
  - destruct room as [|room]; [cbn in Hlen; lia|].
    unfold line_free in Hfree. cbn [all_chars] in Hfree.
    apply andb_true_iff in Hfree as [Hc Hr]. apply negb_true_iff in Hc.
    change (String c r +:+ newline) with (String c (r +:+ newline)).
    cbn [take_line]. rewrite Hc, IH; [done|done|unfold strlen in *; cbn in Hlen; lia].
Qed.


Lemma fgets_whole bufferSize s :
  line_free s = true → S (strlen s) < bufferSize →
  fgets bufferSize (s +:+ newline) = Some (s +:+ newline, EmptyString).
Proof.
  intros Hfree Hlen. unfold fgets.
  destruct (s +:+ newline) as [|c r] eqn:Happ; [by destruct s|].
  rewrite <- Happ. by rewrite take_line_whole by (done || lia).
Qed.

Lemma clean_line_free s : clean s = true → line_free s = true.
Proof.
  apply all_chars_impl. intros c. unfold forbidden.
  rewrite !negb_true_iff, !orb_false_iff. by intros [[? ?] ?].
Qed.

Lemma clean_colon_free s : clean s = true → colon_free s = true.
Proof.
  apply all_chars_impl. intros c. unfold forbidden.
  rewrite !negb_true_iff, !orb_false_iff. by intros [[? ?] ?].
Qed.

Lemma isdigit_clean c : isdigit c = true → forbidden c = false.
Proof. destruct c as [[] [] [] [] [] [] [] []]; by vm_compute. Qed.

Lemma isdigit_plain c :
  isdigit c = true →
  isspace c = false ∧ Ascii.eqb c "-" = false ∧ Ascii.eqb c "+" = false.
Proof. destruct c as [[] [] [] [] [] [] [] []]; by vm_compute. Qed.

Lemma is_integer_all_chars s :
  Mapper.is_integer s = all_chars isdigit s.
Proof.
  induction s as [|c r IH]; [done|]. cbn. rewrite IH. by destruct (isdigit c).
Qed.

Lemma digits_clean s : Mapper.is_integer s = true → clean s = true.
Proof.
  rewrite is_integer_all_chars. apply all_chars_impl.
  intros c Hc. by rewrite (isdigit_clean c Hc).
Qed.

Lemma all_chars_forallb p s :
  all_chars p s = forallb p (list_ascii_of_string s).
Proof. induction s as [|c r IH]; [done|]. cbn. by rewrite IH. Qed.

Lemma roc_is_integer_from s i :
  Roc.is_integer_from s i = all_chars isdigit s && (0 <? i + strlen s).
Proof.
  revert i. induction s as [|c r IH]; intros i.
  - cbn. by rewrite Nat.add_0_r.
  - cbn [Roc.is_integer_from all_chars]. rewrite IH.
    destruct (isdigit c); [|done]. cbn [andb].
    by replace (S i + strlen r) with (i + strlen (String c r))
      by (unfold strlen; cbn; lia).
Qed.

Lemma roc_is_integer s :
  Roc.is_integer s = all_chars isdigit s && negb (String.eqb s EmptyString).
Proof.
  unfold Roc.is_integer. rewrite roc_is_integer_from. f_equal.
  by destruct s.
Qed.

Lemma digits_value_fold s :
  all_chars isdigit s = true →
  ∀ acc, digits_value acc s
         = fold_left (λ acc c, (10 * acc + (Z.of_N (byte c) - 48))%Z)
                     (list_ascii_of_string s) acc.
Proof.
  induction s as [|c r IH]; [done|]. cbn [all_chars].
  rewrite andb_true_iff. intros [Hc Hr] acc. cbn. rewrite Hc. by apply IH.
Qed.

Lemma atoi_digits s :
  Roc.is_integer s = true →
  atoi s = if (Mapper.port_value s <=? INT_MAX)%Z
           then Some (Mapper.port_value s) else None.
Proof.
  rewrite roc_is_integer, andb_true_iff, negb_true_iff.
  intros [Hdigits Hne].
  destruct s as [|c r]; [done|].
  pose proof Hdigits as Hall. cbn [all_chars] in Hdigits.
  apply andb_true_iff in Hdigits as [Hc _].
  destruct (isdigit_plain c Hc) as (Hspace & Hminus & Hplus).
  unfold atoi. cbn [skip_spaces]. rewrite Hspace, Hminus, Hplus.
  rewrite (digits_value_fold _ Hall). fold (Mapper.port_value (String c r)).
  assert (Hpos : ∀ l acc, (0 ≤ acc)%Z →
            Forall (λ c, isdigit c = true) l →
            (0 ≤ fold_left (λ acc c, 10 * acc + (Z.of_N (byte c) - 48)) l acc)%Z).
  { induction l as [|x l IHl]; intros acc Hacc Hl; [done|].
    apply Forall_cons in Hl as [Hx Hl]. cbn. apply IHl; [|done].
    unfold isdigit in Hx. apply andb_true_iff in Hx as [Hlo _].
    apply N.leb_le in Hlo. lia. }
  assert (H0 : (0 ≤ Mapper.port_value (String c r))%Z).
  { apply Hpos; [done|]. apply Forall_forall. intros x Hx.
    rewrite all_chars_forallb, forallb_forall in Hall.
    by apply Hall, list_elem_of_In. }
  replace (INT_MIN <=? Mapper.port_value (String c r))%Z with true; [done|].
  symmetry. apply Z.leb_le. unfold INT_MIN. lia.
Qed.

End Lines.

(** ** Port numbers and ids on the command line *)

Section Arguments.

Import CLine.

(** X10: [is_valid_port_number] accepts exactly the strings of digits, not
    empty, whose value lies in 1..65535, leading zeros allowed; its result is
    undefined exactly for the strings of digits whose value is no [int]; and
    [verify_port_numbers] accepts exactly the arrays of such strings. *)
Theorem valid_port_numbers (port : string) (ports : list string) :
  (Roc.is_valid_port_number port = Some true ↔ Mapper.valid_port port = true)
  ∧ (Roc.is_valid_port_number port = None
     ↔ Roc.is_integer port = true ∧ (INT_MAX < Mapper.port_value port)%Z)
  ∧ (Roc.verify_port_numbers ports = Some true
     ↔ Forall (λ p, Mapper.valid_port p = true) ports).
Proof.
  assert (Hvalid : ∀ p,
    Roc.is_valid_port_number p = Some true ↔ Mapper.valid_port p = true).
  { intros p. unfold Roc.is_valid_port_number, Mapper.valid_port.
    rewrite <- all_chars_forallb.
    destruct (Roc.is_integer p) eqn:Hint.
    - rewrite (atoi_digits p Hint). rewrite roc_is_integer in Hint.
      apply andb_true_iff in Hint as [-> ->]. cbn [negb andb].
      unfold INT_MAX.
      destruct (Z.leb_spec (Mapper.port_value p) 2147483647);
        cbn [mbind option_bind];
        destruct (Z.ltb_spec (Mapper.port_value p) 1);
        destruct (Z.ltb_spec 65535 (Mapper.port_value p));
        destruct (Z.leb_spec 1 (Mapper.port_value p));
        destruct (Z.leb_spec (Mapper.port_value p) 65535);
        cbn; split; intros; try done; try lia.
    - rewrite roc_is_integer in Hint. cbn [negb].
      split; [done|]. rewrite !andb_true_iff. intros [[[Hne Hd] _] _].
      by rewrite Hd, Hne in Hint. }
  split; [apply Hvalid|]. split.
  - unfold Roc.is_valid_port_number.
    destruct (Roc.is_integer port) eqn:Hint; cbn [negb].
    + rewrite (atoi_digits port Hint).
      destruct (Z.leb_spec (Mapper.port_value port) INT_MAX); cbn.
      * split; [by destruct (_ || _)|]. intros [_ ?]. lia.
      * done.
    + split; [done|]. by intros [? _].
  - induction ports as [|p rest IH]; [done|].
    cbn [Roc.verify_port_numbers]. rewrite Forall_cons, <- IH, <- Hvalid.
    destruct (Roc.is_valid_port_number p) as [[]|]; cbn; split; try done.
    + by intros [_ ?].
    + by intros [? _].
    + by intros [? _].
Qed.

Lemma contains_invalid_clean s :
  ControlStart.contains_invalid_characters s = negb (clean s).
Proof.
  induction s as [|c r IH]; [done|].
  cbn [ControlStart.contains_invalid_characters]. unfold clean.
  cbn [all_chars]. fold (forbidden c). fold (clean r). rewrite IH.
  by destruct (forbidden c).
Qed.

(** X11: the control accepts a line as a plane id exactly when what comes
    before its newline is not empty and passes the check the control applies
    to its own id and information at its start. *)
Theorem verify_message_matches_start (s : string) :
  Control.verify_message (s +:+ newline) = true
  ↔ s ≠ EmptyString ∧ ControlStart.contains_invalid_characters s = false.
Proof.
  rewrite verify_message_framed, well_framed_line, contains_invalid_clean.
  rewrite andb_true_iff, !negb_true_iff, negb_false_iff, String.eqb_neq.
  done.
Qed.

Lemma nil_empty_digits (d : Decimal.uint) :
  Mapper.is_integer (NilEmpty.string_of_uint d) = true.
Proof. induction d; cbn; done. Qed.

Lemma print_unsigned_digits n :
  Mapper.is_integer (print_unsigned n) = true
  ∧ print_unsigned n ≠ EmptyString.
Proof.
  unfold print_unsigned, NilZero.string_of_uint.
  destruct (N.to_uint n) as [|d|d|d|d|d|d|d|d|d|d]; [done|..];
    (split; [apply (nil_empty_digits (_ d))|done]).
Qed.

Lemma registration_line_payload id controlPort :
  ControlStart.registration_line id controlPort
  = String "!" (id +:+ ":" +:+ print_unsigned controlPort) +:+ newline.
Proof.
  unfold ControlStart.registration_line.
  change ("!" +:+ id +:+ ":" +:+ print_unsigned controlPort +:+ newline)
    with (String "!" (id +:+ ":" +:+ print_unsigned controlPort +:+ newline)).
  change (String "!" (id +:+ ":" +:+ print_unsigned controlPort) +:+ newline)
    with (String "!" ((id +:+ ":" +:+ print_unsigned controlPort) +:+ newline)).
  by rewrite !append_assoc.
Qed.

Lemma check_arguments_serve argv id info mapperPort :
  ControlStart.check_arguments argv = Some (ControlStart.Serve id info mapperPort) →
  clean id = true ∧ clean info = true.
Proof.
  unfold ControlStart.check_arguments.
  destruct argv as [|prog [|id' [|info' [|port [|extra rest]]]]]; try done.
  - rewrite !contains_invalid_clean.
    destruct (clean id') eqn:Hid, (clean info') eqn:Hinfo; try done.
    cbn. by intros [= <- <- _].
  - rewrite !contains_invalid_clean.
    destruct (clean id') eqn:Hid, (clean info') eqn:Hinfo; try done.
    cbn. destruct (ControlStart.is_valid_port_number port) as [[]|]; try done.
    cbn. by intros [= <- <- _].
Qed.

(** X12: when the control starts with an id its argument check accepts, the
    line it sends to the mapper is read by the mapper in one piece (if it has
    79 characters at most) and registers the control's id with its port
    unless the id is present; a control whose id is empty registers
    nothing. *)
Theorem control_registers_itself argv id info mapperPort controlPort d l :
  ControlStart.check_arguments argv
  = Some (ControlStart.Serve id info mapperPort) →
  strlen (ControlStart.registration_line id controlPort) ≤ Roc.MAX_CHARS →
  Mapper.holds d l →
  Mapper.numAirports d < length (Mapper.airports d) →
  fgets (Roc.MAX_CHARS + 1) (ControlStart.registration_line id controlPort)
  = Some (ControlStart.registration_line id controlPort, EmptyString)
  ∧ ∃ d',
      Mapper.client_step (ControlStart.registration_line id controlPort) d
      = Some (d', [TakeLock; ReleaseLock])
      ∧ (id ≠ EmptyString →
         Mapper.holds d'
           (Mapper.insertIfAbsent
              {| Mapper.name := id;
                 Mapper.portNumber := print_unsigned controlPort |} l))
      ∧ (id = EmptyString → d' = d).
Proof.
  intros Hcheck Hlen Hrep Hroom.
  destruct (check_arguments_serve _ _ _ _ Hcheck) as [Hid _].
  destruct (print_unsigned_digits controlPort) as [Hdigits Hne].
  set (port := print_unsigned controlPort) in *.
  rewrite registration_line_payload in *. fold port in Hlen |- *.
  set (payload := id +:+ ":" +:+ port) in *.
  split.
  - apply fgets_whole.
    + unfold line_free. cbn [all_chars]. cbn [Ascii.eqb Bool.eqb negb andb].
      unfold payload. rewrite !all_chars_app.
      fold (line_free id). rewrite (clean_line_free id Hid).
      cbn. fold (line_free port).
      by rewrite (clean_line_free port (digits_clean port Hdigits)).
    + rewrite strlen_app in Hlen. unfold Roc.MAX_CHARS in *. cbn in Hlen |- *.
      lia.
  - assert (Hfields : fields payload ≠ []).
    { unfold payload. destruct id as [|c r].
      - change (EmptyString +:+ ":" +:+ port) with (String COLON port).
        rewrite fields_colon. unfold fields.
        rewrite (split_colon_free port (is_integer_colon_free port Hdigits)).
        by rewrite filter_cons_True.
      - rewrite fields_pair;
          [done|done|by apply clean_colon_free|done
          |by apply is_integer_colon_free]. }
    assert (Hpayload : payload ≠ EmptyString) by (by intros Heq; rewrite Heq in Hfields).
    destruct (add_airport_room payload d l Hrep Hroom Hfields)
      as (d' & Hadd & Hrep' & Hsame).
    exists d'. rewrite client_step_register, Hadd by done.
    split; [done|]. split.
    + intros Hidne. unfold payload in Hrep'.
      by rewrite registration_pair in Hrep'
        by (done || by apply clean_colon_free).
    + intros ->. apply Hsame. unfold payload, Mapper.registration.
      change (EmptyString +:+ ":" +:+ port) with (String COLON port).
      rewrite fields_colon. unfold fields.
      rewrite (split_colon_free port (is_integer_colon_free port Hdigits)).
      by rewrite filter_cons_True.
Qed.

Lemma control_registers_itself_witness :
  ControlStart.check_arguments ["control2310"; "BNE"; "quarantined"; "55000"]
  = Some (ControlStart.Serve "BNE" "quarantined" (Some "55000"))
  ∧ ∃ d',
      Mapper.client_step (ControlStart.registration_line "BNE" 8001)
                         Mapper.initial
      = Some (d', [TakeLock; ReleaseLock])
      ∧ ("BNE" ≠ EmptyString →
         Mapper.holds d'
           (Mapper.insertIfAbsent
              {| Mapper.name := "BNE";
                 Mapper.portNumber := print_unsigned 8001 |} []))
      ∧ ("BNE" = EmptyString → d' = Mapper.initial).
Proof.
  assert (Hcheck : ControlStart.check_arguments
                     ["control2310"; "BNE"; "quarantined"; "55000"]
                   = Some (ControlStart.Serve "BNE" "quarantined" (Some "55000")))
    by (by vm_compute).
  split; [exact Hcheck|].
  apply (control_registers_itself _ _ _ _ 8001%N Mapper.initial [] Hcheck).
  - vm_compute. lia.
  - split; [reflexivity|cbn; lia].
  - cbn. lia.
Defined.

End Arguments.
(** ** The roc and the mapper *)

Section Resolve.

Import CLine.

Implicit Types (read : nat → option string) (airports : list string).

Lemma cut_last_is_Some s : s ≠ EmptyString → is_Some (cut_last s).
Proof.
  induction s as [|c r IH]; [done|]. intros _.
  destruct r as [|c' r']; [by eexists|].
  change (cut_last (String c (String c' r')))
    with (r0 ← cut_last (String c' r'); Some (String c r0)).
  destruct IH as [r0 ->]; [done|]. by eexists.
Qed.

Lemma verify_message_cut reply :
  Roc.verify_message reply = true →
  ∃ text, cut_last reply = Some text ∧ reply = text +:+ newline
          ∧ text ≠ EmptyString ∧ clean text = true.
Proof.
  unfold Roc.verify_message. intros Hverify.
  pose proof (verify_message_last reply Hverify) as Hlast.
  destruct (cut_last reply) as [text|] eqn:Hcut.
  2:{ destruct reply as [|c r]; [done|].
      destruct (cut_last_is_Some (String c r)) as [? Hsome]; [done|].
      congruence. }
  pose proof (cut_last_inv _ _ Hcut) as Heq. rewrite Hlast in Heq.
  exists text. split; [done|]. split; [done|].
  rewrite verify_message_framed, Heq in Hverify.
  change (text +:+ String LF EmptyString) with (text +:+ newline) in Hverify.
  rewrite well_framed_line, andb_true_iff, negb_true_iff in Hverify.
  destruct Hverify as [Hne Hclean]. split; [|done]. by intros ->.
Qed.

Lemma parse_loop_result read airports :
  ∀ k result airports' written,
    Roc.parse_loop read airports k = Some (result, airports', written) →
    (result = 0%Z ∨ result = (-2)%Z)
    ∧ length airports' = length airports
    ∧ (result = 0%Z →
       Forall2 (λ a a', (is_port a = true ∧ a' = a)
                        ∨ (is_port a = false ∧ a' ≠ EmptyString ∧ a' ≠ ";"
                           ∧ clean a' = true)) airports airports'
       ∧ written = lookup_request <$> filter (λ a, is_port a = false) airports).
Proof.
  induction airports as [|a rest IH]; intros k result airports' written.
  - intros [= <- <- <-]. split; [by left|]. split; [done|]. intros _.
    split; [constructor|done].
  - cbn [Roc.parse_loop].
    destruct (Roc.is_valid_port_number a) as [valid|] eqn:Hvalid; [|done].
    cbn [mbind option_bind].
    assert (Hport : is_port a = valid).
    { unfold is_port. rewrite Hvalid. by destruct valid. }
    destruct valid.
    + destruct (Roc.parse_loop read rest k) as [[[r1 a1] w1]|] eqn:Hrest;
        [|done].
      intros Heq. cbn in Heq. injection Heq as <- <- <-.
      destruct (IH _ _ _ _ Hrest) as (Hres & Hlen & Hok).
      split; [done|]. split; [cbn; by rewrite Hlen|]. intros Hzero.
      destruct (Hok Hzero) as [Hall Hwritten]. split.
      * constructor; [by left|done].
      * rewrite filter_cons_False by (by rewrite Hport). done.
    + destruct (read k) as [reply|];
        [|intros [= <- <- <-]; split; [by right|]; by split].
      destruct (Roc.verify_message reply) eqn:Hverify; cbn [negb];
        [|intros [= <- <- <-]; split; [by right|]; by split].
      destruct (verify_message_cut reply Hverify)
        as (text & -> & _ & Hne & Hclean).
      cbn [mbind option_bind].
      destruct (Z.eqb_spec (strcmp text ";") 0) as [Heq|Hsemi];
        [intros [= <- <- <-]; split; [by right|]; by split|].
      destruct (Roc.parse_loop read rest (S k)) as [[[r1 a1] w1]|] eqn:Hrest;
        [|done].
      intros Heq. cbn in Heq. injection Heq as <- <- <-.
      destruct (IH _ _ _ _ Hrest) as (Hres & Hlen & Hok).
      split; [done|]. split; [cbn; by rewrite Hlen|]. intros Hzero.
      destruct (Hok Hzero) as [Hall Hwritten]. split.
      * constructor; [|done]. right. split; [done|]. split; [done|].
        split; [|done]. intros ->. by apply Hsemi.
      * rewrite filter_cons_True by done. cbn. by rewrite Hwritten.
Qed.



Lemma sent_one_line text :
  sent [TakeLock; Fprintf text; Fflush; ReleaseLock] = text.
Proof. unfold sent. cbn. apply append_empty_r. Qed.

Lemma lookup_request_chunk a :
  lookup_request a = String "?" a +:+ newline.
Proof. done. Qed.

Lemma mapper_reply_lookup d l a :
  Mapper.holds d l → a ≠ EmptyString →
  line_free (lookup_text l a) = true →
  strlen (lookup_text l a) < Roc.MAX_CHARS →
  mapper_reply d (lookup_request a) = Some (lookup_text l a +:+ newline).
Proof.
  intros Hrep Ha Hfree Hlen. unfold mapper_reply.
  rewrite lookup_request_chunk, client_step_lookup,
    (handle_input_lookup a d l Hrep) by done.
  fold (lookup_text l a). cbn [mbind option_bind app].
  rewrite sent_one_line. unfold Roc.read_line.
  rewrite fgets_whole; [done|done|]. unfold Roc.MAX_CHARS in *. lia.
Qed.

Lemma lookup_text_found l a :
  Forall proper_airport l → a ∈ Mapper.name <$> l →
  lookup_text l a ≠ EmptyString ∧ lookup_text l a ≠ ";"
  ∧ clean (lookup_text l a) = true
  ∧ ∃ x, x ∈ l ∧ Mapper.name x = a ∧ lookup_text l a = Mapper.portNumber x.
Proof.
  intros Hproper Hin. unfold lookup_text.
  destruct (list_find _ l) as [[i x]|] eqn:Hfind.
  - apply list_find_Some in Hfind as (Hi & Hx & _).
    apply list_elem_of_lookup_2 in Hi.
    rewrite Forall_forall in Hproper.
    destruct (Hproper x Hi) as (_ & _ & Hne & Hdigits).
    split; [done|]. split; [by intros Heq; rewrite Heq in Hdigits|].
    split; [by apply digits_clean|]. by exists x.
  - by apply find_name_None in Hfind.
Qed.

Lemma lookup_text_missing l a :
  a ∉ Mapper.name <$> l → lookup_text l a = ";".
Proof.
  intros Hout. unfold lookup_text.
  by apply find_name_None in Hout as ->.
Qed.

Lemma verify_message_line text :
  text ≠ EmptyString → clean text = true →
  Roc.verify_message (text +:+ newline) = true.
Proof.
  intros Hne Hclean. unfold Roc.verify_message.
  rewrite verify_message_framed, well_framed_line, Hclean.
  by destruct text.
Qed.

Lemma parse_loop_with_mapper d l read airports :
  Mapper.holds d l →
  Forall (λ x, proper_airport x ∧ strlen (Mapper.portNumber x) < Roc.MAX_CHARS) l →
  Forall (λ a, ∃ b, Roc.is_valid_port_number a = Some b) airports →
  Forall (λ a, is_port a = false → a ≠ EmptyString) airports →
  ∀ k,
    (∀ j a, filter (λ a, is_port a = false) airports !! j = Some a →
            read (k + j) = mapper_reply d (lookup_request a)) →
    (Forall (λ a, is_port a = false → a ∈ Mapper.name <$> l) airports →
     Roc.parse_loop read airports k
     = Some (0%Z, (λ a, if is_port a then a else lookup_text l a) <$> airports,
             lookup_request <$> filter (λ a, is_port a = false) airports))
    ∧ (Exists (λ a, is_port a = false ∧ a ∉ Mapper.name <$> l) airports →
       ∃ array written,
         Roc.parse_loop read airports k = Some ((-2)%Z, array, written)).
Proof.
  intros Hrep Hl.
  assert (Hproper : Forall proper_airport l)
    by (eapply Forall_impl; [exact Hl|]; by intros x [? _]).
  induction airports as [|a rest IH]; intros Hvalid Hne k Hread.
  { split; [done|]. intros Hex. by apply Exists_nil in Hex. }
  apply Forall_cons in Hvalid as [[b Hb] Hvalid].
  apply Forall_cons in Hne as [Ha Hne].
  assert (Hport : is_port a = b).
  { unfold is_port. rewrite Hb. by destruct b. }
  cbn [Roc.parse_loop]. rewrite Hb. cbn [mbind option_bind].
  destruct b.
  - rewrite filter_cons_False in Hread by (by rewrite Hport).
    destruct (IH Hvalid Hne k Hread) as [IHok IHbad]. split.
    + intros Hall. apply Forall_cons in Hall as [_ Hall].
      rewrite (IHok Hall), filter_cons_False by (by rewrite Hport).
      cbn [mbind option_bind]. by rewrite fmap_cons, Hport.
    + intros Hex. apply Exists_cons in Hex as [[Hcontra _]|Hex]; [congruence|].
      destruct (IHbad Hex) as (array & written & ->). cbn. by eexists _, _.
  - rewrite filter_cons_True in Hread by done.
    assert (Hrest : ∀ j a', filter (λ a, is_port a = false) rest !! j = Some a' →
                      read (S k + j) = mapper_reply d (lookup_request a')).
    { intros j a' Hj. replace (S k + j) with (k + S j) by lia.
      by apply Hread. }
    specialize (Hread 0 a eq_refl). rewrite Nat.add_0_r in Hread.
    destruct (IH Hvalid Hne (S k) Hrest) as [IHok IHbad].
    destruct (decide (a ∈ Mapper.name <$> l)) as [Hin|Hout].
    + destruct (lookup_text_found l a Hproper Hin)
        as (Htext & Hsemi & Hclean & x & Hx & _ & Hport').
      assert (Hlen : strlen (lookup_text l a) < Roc.MAX_CHARS).
      { rewrite Hport'. rewrite Forall_forall in Hl. by apply (Hl x Hx). }
      rewrite Hread, (mapper_reply_lookup d l a Hrep (Ha Hport)
                        (clean_line_free _ Hclean) Hlen).
      rewrite (verify_message_line _ Htext Hclean), cut_last_newline.
      cbn [negb mbind option_bind].
      destruct (Z.eqb_spec (strcmp (lookup_text l a) ";") 0) as [Heq|_].
      { by apply strcmp_eq in Heq. }
      split.
      * intros Hall. apply Forall_cons in Hall as [_ Hall].
        rewrite (IHok Hall), filter_cons_True by done.
        cbn [mbind option_bind]. by rewrite !fmap_cons, Hport.
      * intros Hex. apply Exists_cons in Hex as [[_ Hcontra]|Hex]; [done|].
        destruct (IHbad Hex) as (array & written & ->). cbn. by eexists _, _.
    + rewrite Hread, (mapper_reply_lookup d l a Hrep (Ha Hport));
        rewrite (lookup_text_missing l a Hout); [|done|vm_compute; lia].
      cbn. split; [|by eexists _, _].
      intros Hall. apply Forall_cons in Hall as [Hin _]. by specialize (Hin Hport).
Qed.

(** X14: when the lines the roc reads are what a mapper holding proper
    entries answers to the roc's requests, [parse_to_port_numbers] replaces
    every airport id by the port registered for it and returns 0 if every id
    it has to ask for is registered, and returns -2 if one of them is not;
    each request of at most 79 characters is read by the mapper in one
    piece. *)
Theorem roc_resolves_with_mapper d l fileDescriptor read airports :
  fileDescriptor ≠ (-1)%Z →
  Mapper.holds d l →
  Forall (λ x, proper_airport x
               ∧ strlen (Mapper.portNumber x) < Roc.MAX_CHARS) l →
  Forall (λ a, ∃ b, Roc.is_valid_port_number a = Some b) airports →
  Forall (λ a, is_port a = false →
               a ≠ EmptyString ∧ line_free a = true
               ∧ strlen (lookup_request a) ≤ Roc.MAX_CHARS) airports →
  (∀ j a, filter (λ a, is_port a = false) airports !! j = Some a →
          read j = mapper_reply d (lookup_request a)) →
  Forall (λ a, is_port a = false →
               fgets (Roc.MAX_CHARS + 1) (lookup_request a)
               = Some (lookup_request a, EmptyString)) airports
  ∧ (Forall (λ a, is_port a = false → a ∈ Mapper.name <$> l) airports →
     Roc.parse_to_port_numbers fileDescriptor read airports
     = Some (0%Z, (λ a, if is_port a then a else lookup_text l a) <$> airports,
             lookup_request <$> filter (λ a, is_port a = false) airports))
  ∧ (Exists (λ a, is_port a = false ∧ a ∉ Mapper.name <$> l) airports →
     ∃ array written,
       Roc.parse_to_port_numbers fileDescriptor read airports
       = Some ((-2)%Z, array, written)).
Proof.
  intros Hfd Hrep Hl Hvalid Hask Hread. split.
  - eapply Forall_impl; [exact Hask|]. intros a Ha Hport.
    destruct (Ha Hport) as (Hne & Hfree & Hlen).
    rewrite lookup_request_chunk in *.
    apply fgets_whole.
    + unfold line_free in *. cbn [all_chars]. by rewrite Hfree.
    + rewrite strlen_app in Hlen. unfold Roc.MAX_CHARS in *. cbn in Hlen |- *.
      lia.
  - unfold Roc.parse_to_port_numbers.
    destruct (Z.eqb_spec fileDescriptor (-1)); [done|].
    apply (parse_loop_with_mapper d l read airports Hrep Hl Hvalid).
    + eapply Forall_impl; [exact Hask|]. intros a Ha Hport.
      by destruct (Ha Hport).
    + done.
Qed.

Lemma roc_resolves_with_mapper_witness :
  Mapper.holds Mapper.with_bne [Mapper.bne]
  ∧ Roc.parse_to_port_numbers 3
      (λ _, mapper_reply Mapper.with_bne (lookup_request "BNE"))
      ["BNE"; "8002"]
    = Some (0%Z, ["8001"; "8002"], [lookup_request "BNE"]).
Proof.
  assert (Hrep : Mapper.holds Mapper.with_bne [Mapper.bne])
    by (split; [reflexivity|cbn; lia]).
  assert (Hl : Forall (λ x, proper_airport x
                            ∧ strlen (Mapper.portNumber x) < Roc.MAX_CHARS)
                      [Mapper.bne]).
  { apply Forall_cons. split; [|constructor].
    split; [by repeat split|vm_compute; lia]. }
  assert (Hvalid : Forall (λ a, ∃ b, Roc.is_valid_port_number a = Some b)
                          ["BNE"; "8002"]).
  { apply Forall_cons. split; [by exists false|].
    apply Forall_cons. split; [by exists true|constructor]. }
  assert (Hask : Forall (λ a, is_port a = false →
                          a ≠ EmptyString ∧ line_free a = true
                          ∧ strlen (lookup_request a) ≤ Roc.MAX_CHARS)
                        ["BNE"; "8002"]).
  { apply Forall_cons. split.
    { intros _. split; [done|]. split; [done|vm_compute; lia]. }
    apply Forall_cons. split; [|constructor].
    intros Hport. by vm_compute in Hport. }
  assert (Hread : ∀ j a,
            filter (λ a, is_port a = false) ["BNE"; "8002"] !! j = Some a →
            mapper_reply Mapper.with_bne (lookup_request "BNE")
            = mapper_reply Mapper.with_bne (lookup_request a)).
  { intros [|j] a Hj; vm_compute in Hj; [by injection Hj as <-|done]. }
  split; [exact Hrep|].
  apply (proj1 (proj2
           (roc_resolves_with_mapper Mapper.with_bne [Mapper.bne] 3
              (λ _, mapper_reply Mapper.with_bne (lookup_request "BNE"))
              ["BNE"; "8002"] ltac:(done) Hrep Hl Hvalid Hask Hread))).
  apply Forall_cons. split.
  { intros _. apply (bool_decide_unpack _). by vm_compute. }
  apply Forall_cons. split; [|constructor].
  intros Hport. by vm_compute in Hport.
Defined.

End Resolve.
(** ** The roc and the controls *)

Section Visits.

Import CLine.

Implicit Types (connect : nat → string → Z) (read : nat → option string).

Lemma create_log_from_facts connect read id ports :
  ∀ i, ∃ log failed written,
    Roc.create_log_from connect read id ports i = Some (log, failed, written)
    ∧ length log ≤ length written ∧ length written ≤ length ports
    ∧ (failed = false ↔ length log = length ports)
    ∧ Forall (λ entry, entry ≠ EmptyString ∧ clean entry = true) log
    ∧ Forall (λ w, w.2 = id +:+ newline) written.
Proof.
  induction ports as [|port rest IH]; intros i.
  { exists [], false, []. by repeat split. }
  destruct (IH (S i)) as (log & failed & written & Hrest & H1 & H2 & H3 & H4 & H5).
  cbn [Roc.create_log_from]. rewrite Hrest. cbn [mbind option_bind length].
  assert (Hlog : length log ≤ length rest) by lia.
  destruct (connect i port =? -1)%Z.
  { exists log, true, written. repeat split; try done; try lia. }
  destruct (read i) as [info|].
  2:{ exists log, true, ((i, id +:+ newline) :: written).
      repeat split; try done; cbn; try lia. by constructor. }
  destruct (Roc.verify_message info) eqn:Hverify; cbn [negb].
  2:{ exists log, true, ((i, id +:+ newline) :: written).
      repeat split; try done; cbn; try lia. by constructor. }
  destruct (verify_message_cut info Hverify) as (text & -> & _ & Hne & Hclean).
  cbn [mbind option_bind].
  exists (text :: log), failed, ((i, id +:+ newline) :: written).
  split; [done|]. cbn [length]. split; [lia|]. split; [lia|].
  split; [rewrite H3; lia|]. split; by constructor.
Qed.

(** X15: [create_log] always returns; its log has at most as many entries
    as lines were written to destinations, and those are at most as many as
    there are destinations; every line written is the id and a newline;
    every entry of the log is not empty and free of newline, carriage return
    and colon; and the failure flag stays down exactly when every
    destination gave an entry. *)
Theorem create_log_result connect read (id : string) (ports : list string) :
  ∃ log failed written,
    Roc.create_log connect read id ports = Some (log, failed, written)
    ∧ length log ≤ length written ∧ length written ≤ length ports
    ∧ (failed = false ↔ length log = length ports)
    ∧ Forall (λ entry, entry ≠ EmptyString ∧ clean entry = true) log
    ∧ Forall (λ w, w.2 = id +:+ newline) written.
Proof. apply create_log_from_facts. Qed.





Lemma main_cases id mapper airports program net r :
  Roc.main (program :: id :: mapper :: airports) net = Some r →
  (∃ code message,
     (2 ≤ code ≤ 5)%Z
     ∧ r = {| Roc.status := code; Roc.stdout := [];
              Roc.stderr := [message] |})
  ∨ (∃ ports log failed written message,
       length ports = length airports
       ∧ Roc.create_log (Roc.connect net) (Roc.read net) id ports
         = Some (log, failed, written)
       ∧ r = if failed
             then {| Roc.status := 6; Roc.stdout := Roc.display_log log;
                     Roc.stderr := [message] |}
             else {| Roc.status := 0; Roc.stdout := Roc.display_log log;
                     Roc.stderr := [] |}).
Proof.
  unfold Roc.main.
  destruct (negb (strcmp "-" mapper =? 0)%Z).
  - destruct (Roc.is_valid_port_number mapper) as [[|]|]; [| |done];
      cbn [mbind option_bind negb].
    2:{ intros [= <-]. left. eexists 2%Z, _. split; [lia|done]. }
    destruct (Roc.parse_to_port_numbers _ _ airports)
      as [[[result ports] written0]|] eqn:Hparse; [|done].
    cbn [mbind option_bind].
    unfold Roc.parse_to_port_numbers in Hparse.
    assert (Hlen : (result =? -1)%Z = false → (result =? -2)%Z = false →
                   length ports = length airports).
    { intros H1 H2. destruct (Roc.mapper_connect net =? -1)%Z.
      - injection Hparse as <- <- <-. done.
      - by destruct (parse_loop_result _ _ _ _ _ _ Hparse) as (_ & ? & _). }
    destruct (result =? -1)%Z.
    { intros [= <-]. left. eexists 4%Z, _. split; [lia|done]. }
    destruct (result =? -2)%Z.
    { intros [= <-]. left. eexists 5%Z, _. split; [lia|done]. }
    destruct (Roc.create_log _ _ id ports) as [[[log failed] written]|] eqn:Hlog;
      [|done].
    cbn [mbind option_bind]. intros [= <-]. right.
    exists ports, log, failed, written. eexists. split; [by apply Hlen|].
    split; [done|]. by destruct failed.
  - cbn [mbind option_bind negb].
    destruct (Roc.verify_port_numbers airports) as [[|]|]; [| |done];
      cbn [mbind option_bind negb].
    2:{ intros [= <-]. left. eexists 3%Z, _. split; [lia|done]. }
    destruct (Roc.create_log _ _ id airports)
      as [[[log failed] written]|] eqn:Hlog; [|done].
    cbn [mbind option_bind]. intros [= <-]. right.
    exists airports, log, failed, written. eexists. split; [done|].
    split; [done|]. by destruct failed.
Qed.

(** X17: a run of the roc ends with a status from 0 to 6, and with 1 exactly
    when it has fewer than two arguments.  Status 0 comes with nothing on the
    standard error and one line on the standard output for each destination;
    every other status comes with one message on the standard error, status 6
    with fewer lines than destinations, and statuses 1 to 5 with no line at
    all.  Every line on the standard output is a text that is not empty and
    free of newline, carriage return and colon, followed by a newline. *)
Theorem roc_main_result (argv : list string) (net : Roc.network)
  (r : Roc.run) :
  Roc.main argv net = Some r →
  (0 ≤ Roc.status r ≤ 6)%Z
  ∧ (Roc.status r = 1%Z ↔ length argv < 3)
  ∧ (Roc.status r = 0%Z →
     Roc.stderr r = [] ∧ length (Roc.stdout r) = length argv - 3)
  ∧ (Roc.status r ≠ 0%Z → length (Roc.stderr r) = 1)
  ∧ (Roc.status r = 6%Z → length (Roc.stdout r) < length argv - 3)
  ∧ (Roc.status r ≠ 0%Z → Roc.status r ≠ 6%Z → Roc.stdout r = [])
  ∧ Forall (λ line, ∃ entry, line = entry +:+ newline
                             ∧ entry ≠ EmptyString ∧ clean entry = true)
      (Roc.stdout r).
Proof.
  destruct argv as [|program [|id [|mapper airports]]];
    try (intros [= <-]; cbn; repeat split; (done || lia)).
  intros Hmain.
  destruct (main_cases _ _ _ _ _ _ Hmain)
    as [(code & message & Hcode & ->)
       |(ports & log & failed & written & message & Hlen & Hlog & ->)].
  { cbn [Roc.status Roc.stdout Roc.stderr length].
    repeat split; (done || lia). }
  destruct (create_log_from_facts (Roc.connect net) (Roc.read net) id ports 0)
    as (log' & failed' & written' & Hlog' & H1 & H2 & H3 & H4 & _).
  unfold Roc.create_log in Hlog. rewrite Hlog in Hlog'.
  injection Hlog' as <- <- <-.
  assert (Hlines : Forall (λ line, ∃ entry, line = entry +:+ newline
                             ∧ entry ≠ EmptyString ∧ clean entry = true)
                     (Roc.display_log log)).
  { unfold Roc.display_log. apply Forall_fmap.
    eapply Forall_impl; [exact H4|]. intros entry [Hne Hclean].
    by exists entry. }
  assert (Hout : length (Roc.display_log log) = length log)
    by (unfold Roc.display_log; by rewrite length_fmap).
  destruct failed; cbn [Roc.status Roc.stdout Roc.stderr length].
  - assert (length log ≠ length ports) by (intros Heq; by apply H3 in Heq).
    repeat split; (done || lia).
  - assert (length log = length ports) by (by apply H3).
    repeat split; (done || lia).
Qed.

Lemma roc_main_result_witness :
  Roc.main ["roc2310"; "F100"; "-"; "55001"]
    {| Roc.mapper_connect := (-1)%Z; Roc.mapper_read := λ _, None;
       Roc.connect := λ _ _, 3%Z;
       Roc.read := λ _, Some ("quarantined" +:+ newline) |}
  = Some {| Roc.status := 0; Roc.stdout := ["quarantined" +:+ newline];
            Roc.stderr := [] |}
  ∧ (0 ≤ 0 ≤ 6)%Z.
Proof.
  assert (Hrun :
    Roc.main ["roc2310"; "F100"; "-"; "55001"]
      {| Roc.mapper_connect := (-1)%Z; Roc.mapper_read := λ _, None;
         Roc.connect := λ _ _, 3%Z;
         Roc.read := λ _, Some ("quarantined" +:+ newline) |}
    = Some {| Roc.status := 0; Roc.stdout := ["quarantined" +:+ newline];
              Roc.stderr := [] |}) by reflexivity.
  split; [exact Hrun|].
  exact (proj1 (roc_main_result _ _ _ Hrun)).
Defined.

End Visits.
(** ** Lines as [fgets] cuts them *)

Section Streams.

Import CLine.








End Streams.
